(** * pysolc: selection of the solc version for a Solidity project

    A shallow embedding of [scripts/pysolc.py]: the version type
    [SolidityVersion], the pragma scanner [parse_version] with the regular
    expression [comp_version_rex] and the table [ops], the refresh of the
    global catalog [SOLC_VERSIONS] by [set_supported_solc_versions],
    [compile_solfiles] with its local function [complete_remapping] and its
    choice of the compiler version, [get_sol_files] and [compile_project].

    Conventions of the embedding.
    - Python [int] is [N] (every integer here comes from [int] applied to a
      run of digits); a tuple of ints is a Rocq tuple, compared the way Python
      compares tuples (the first position where they differ decides).
    - Python [str] is [string], holding the UTF-8 bytes of the text (the
      encoding [parse_version] opens its file with); an [ascii] is one byte,
      and a character outside ASCII takes two to four of them.  Substring
      tests, prefixes, suffixes and splitting at an ASCII character give the
      same answers on the bytes as on the characters.  The digit class [\d]
      of [comp_version_rex], a [str] pattern compiled without [re.ASCII], is
      the Unicode category Nd; the [\d] of [StrictVersion], compiled with
      [re.ASCII], is [[0-9]].
    - An exception is a value of [exception]; a call that may raise returns a
      [result], and [x <- r ;; k] propagates the first exception.
    - The module-level global [SOLC_VERSIONS] is passed explicitly: a reader
      takes it as an argument, the writer returns its new value.
    - The outside world (the GitHub release listing, the names of the
      installed compilers, what opening and reading a source file gives) is
      an argument of the functions that consult it.
    - What the script takes from Python's library is modelled after CPython:
      [distutils.version.StrictVersion] (parse, [__str__], [_cmp] and the
      comparisons built on it), [re] on the two patterns involved, [min],
      [max], [sorted], [str.split], and [os.path.join] of [posixpath]. *)

From Stdlib Require Import List String Ascii Bool NArith ZArith Lia.
From Stdlib Require Import DecimalString DecimalN Sorted.
Import ListNotations.

Local Open Scope string_scope.
Local Open Scope N_scope.

(** ** Exceptions *)

(** The exceptions met in the script.  [OSError] and [UnicodeDecodeError]
    are what [open] and [readlines] raise for a file that cannot be opened
    or is not UTF-8 text; Python derives the latter from [ValueError], which
    matters to no [except] clause here (the only one that names [ValueError]
    guards the call of [min] alone). *)
Inductive exception : Type :=
| CompilerVersionNotSupported (msg : string)
| ValueError (msg : string)
| KeyError (key : string)
| IndexError (msg : string)
| AttributeError (msg : string)
| OSError (msg : string)
| UnicodeDecodeError (msg : string).

Inductive result (A : Type) : Type :=
| Ok (a : A)
| Raise (e : exception).

Arguments Ok {A} a.
Arguments Raise {A} e.

Definition bind {A B : Type} (r : result A) (k : A -> result B) : result B :=
  match r with
  | Ok a => k a
  | Raise e => Raise e
  end.

Notation "x <- r ;; k" := (bind r (fun x => k))
  (at level 100, r at next level, right associativity).

(** [[f(x) for x in xs]] for an [f] that may raise: left to right, the first
    exception ends the comprehension. *)
Fixpoint for_each {A B : Type} (f : A -> result B) (xs : list A) : result (list B) :=
  match xs with
  | [] => Ok []
  | x :: xs' => y <- f x ;; ys <- for_each f xs' ;; Ok (y :: ys)
  end.

(** ** Python strings *)

(** [s.startswith(p)] *)
Definition startswith (s p : string) : bool := prefix p s.

(** [s.endswith(p)], for a one-character [p]. *)
Fixpoint endswith_char (s : string) (c : ascii) : bool :=
  match s with
  | EmptyString => false
  | String a EmptyString => Ascii.eqb a c
  | String _ s' => endswith_char s' c
  end.

(** [needle in hay] *)
Fixpoint str_in (needle hay : string) : bool :=
  prefix needle hay ||
  match hay with
  | EmptyString => false
  | String _ hay' => str_in needle hay'
  end.

(** [s[1:]] *)
Definition tail (s : string) : string :=
  match s with
  | EmptyString => EmptyString
  | String _ s' => s'
  end.

(** [s[n:]] *)
Fixpoint drop (n : nat) (s : string) : string :=
  match n, s with
  | O, _ => s
  | S n', String _ s' => drop n' s'
  | S _, EmptyString => EmptyString
  end.

(** [s.split(sep)] for a one-character separator. *)
Fixpoint str_split (sep : ascii) (s : string) : list string :=
  match s with
  | EmptyString => [EmptyString]
  | String c s' =>
      if Ascii.eqb c sep then EmptyString :: str_split sep s'
      else match str_split sep s' with
           | p :: ps => String c p :: ps
           | [] => [String c EmptyString]
           end
  end.

(** [s.isascii()] *)
Fixpoint isascii (s : string) : bool :=
  match s with
  | EmptyString => true
  | String c s' => (N_of_ascii c <? 128) && isascii s'
  end.

(** The class [[0-9]]: what [\d] is under [re.ASCII]. *)
Definition isdigit (c : ascii) : bool :=
  (48 <=? N_of_ascii c) && (N_of_ascii c <=? 57).

(** The longest run of ASCII digits at the start of [s], and what follows
    it: how a greedy [\d*] consumes under [re.ASCII]. *)
Fixpoint digits (s : string) : string * string :=
  match s with
  | EmptyString => (EmptyString, EmptyString)
  | String c s' =>
      if isdigit c
      then let (d, r) := digits s' in (String c d, r)
      else (EmptyString, s)
  end.

(** [int(s)] for a run of digits. *)
Fixpoint int_from (acc : N) (s : string) : N :=
  match s with
  | EmptyString => acc
  | String c s' => int_from (10 * acc + (N_of_ascii c - 48)) s'
  end.

Definition int (s : string) : N := int_from 0 s.

(** [str(n)] for a non-negative [int]. *)
Definition str (n : N) : string := NilZero.string_of_uint (N.to_uint n).

(** ** distutils.version.StrictVersion *)

(** The two attributes [parse] sets: [version], a 3-tuple of ints, and
    [prerelease], [None] or a pair of the letter and its number. *)
Record SolidityVersion : Type := mkVersion {
  version : N * N * N;
  prerelease : option (ascii * N)
}.

(** [$] without MULTILINE: the end of the string, or just before a newline
    that ends it. *)
Definition at_dollar (s : string) : bool :=
  match s with
  | EmptyString => true
  | String c EmptyString => Ascii.eqb c "010"
  | _ => false
  end.

Definition invalid_version {A : Type} (vstring : string) : result A :=
  Raise (ValueError ("invalid version number '" ++ vstring ++ "'")).

(** [StrictVersion.parse]: the string has to match
    [^(\d+) \. (\d+) (\. (\d+))? ([ab](\d+))?$] (VERBOSE, ASCII).  No digit is
    a dot, a letter or the end of the string, so each greedy [\d+] takes its
    whole run and each optional group is taken exactly when it can start. *)
Definition StrictVersion_parse (vstring : string) : result SolidityVersion :=
  let (major, r1) := digits vstring in
  match major, r1 with
  | String _ _, String "." r1' =>
      let (minor, r2) := digits r1' in
      match minor with
      | EmptyString => invalid_version vstring
      | String _ _ =>
          let '(patch, r3) :=
            match r2 with
            | String "." r2' =>
                let (p, r) := digits r2' in
                match p with
                | EmptyString => (None, r2)
                | String _ _ => (Some p, r)
                end
            | _ => (None, r2)
            end in
          let '(pre, r4) :=
            match r3 with
            | String c r3' =>
                if Ascii.eqb c "a" || Ascii.eqb c "b"
                then let (n, r) := digits r3' in
                     match n with
                     | EmptyString => (None, r3)
                     | String _ _ => (Some (c, int n), r)
                     end
                else (None, r3)
            | EmptyString => (None, r3)
            end in
          if at_dollar r4
          then Ok {| version :=
                       match patch with
                       | Some p => (int major, int minor, int p)
                       | None => (int major, int minor, 0)
                       end;
                     prerelease := pre |}
          else invalid_version vstring
      end
  | _, _ => invalid_version vstring
  end.

(** The constructor [SolidityVersion(vstring)], inherited from [Version]:
    [if vstring: self.parse(vstring)].  For the empty string nothing is
    parsed and the object is left without attributes: [None]. *)
Definition SolidityVersion_init (vstring : string)
  : result (option SolidityVersion) :=
  match vstring with
  | EmptyString => Ok None
  | String _ _ => x <- StrictVersion_parse vstring ;; Ok (Some x)
  end.

(** Reading [self.version], which every method and comparison starts with. *)
Definition attributes (self : option SolidityVersion) : result SolidityVersion :=
  match self with
  | Some x => Ok x
  | None =>
      Raise (AttributeError "'SolidityVersion' object has no attribute 'version'")
  end.

(** A version built and read at once. *)
Definition SolidityVersion_new (vstring : string) : result SolidityVersion :=
  self <- SolidityVersion_init vstring ;; attributes self.

(** [StrictVersion.__str__] *)
Definition StrictVersion_str (v : SolidityVersion) : string :=
  let '(major, minor, patch) := version v in
  let vstring :=
    if patch =? 0
    then str major ++ "." ++ str minor
    else str major ++ "." ++ str minor ++ "." ++ str patch in
  match prerelease v with
  | Some (letter, num) => vstring ++ String letter EmptyString ++ str num
  | None => vstring
  end.

(** Python's comparison of tuples: the first position where the two differ
    decides; tuples of one length that differ nowhere are equal. *)
Definition tuple3_ne (a b : N * N * N) : bool :=
  let '(a0, a1, a2) := a in
  let '(b0, b1, b2) := b in
  negb (a0 =? b0) || negb (a1 =? b1) || negb (a2 =? b2).

Definition tuple3_lt (a b : N * N * N) : bool :=
  let '(a0, a1, a2) := a in
  let '(b0, b1, b2) := b in
  if negb (a0 =? b0) then a0 <? b0
  else if negb (a1 =? b1) then a1 <? b1
  else if negb (a2 =? b2) then a2 <? b2
  else false.

Definition tuple2_ge (a b : N * N) : bool :=
  let '(a0, a1) := a in
  let '(b0, b1) := b in
  if negb (a0 =? b0) then b0 <=? a0
  else if negb (a1 =? b1) then b1 <=? a1
  else true.

(** A prerelease is a (one-character string, int) pair. *)
Definition pre_eq (p q : ascii * N) : bool :=
  Ascii.eqb (fst p) (fst q) && (snd p =? snd q).

Definition pre_lt (p q : ascii * N) : bool :=
  if negb (Ascii.eqb (fst p) (fst q)) then N_of_ascii (fst p) <? N_of_ascii (fst q)
  else if negb (snd p =? snd q) then snd p <? snd q
  else false.

(** [StrictVersion._cmp], both arguments being versions. *)
Definition _cmp (self other : SolidityVersion) : Z :=
  if tuple3_ne (version self) (version other) then
    if tuple3_lt (version self) (version other) then (-1)%Z else 1%Z
  else
    match prerelease self, prerelease other with
    | None, None => 0%Z
    | Some _, None => (-1)%Z
    | None, Some _ => 1%Z
    | Some p, Some q =>
        if pre_eq p q then 0%Z
        else if pre_lt p q then (-1)%Z
        else 1%Z
    end.

(** ** class SolidityVersion(StrictVersion) *)

(** [SolidityVersion.__xor__]: [version[0]] against [version[0]], and the
    slices [version[1:]] compared as tuples. *)
Definition SolidityVersion_xor (self other : SolidityVersion) : bool :=
  let '(s0, s1, s2) := version self in
  let '(o0, o1, o2) := version other in
  (s0 =? o0) && tuple2_ge (s1, s2) (o1, o2).

(** [SolidityVersion.__str__] *)
Definition SolidityVersion_str (self : SolidityVersion) : string :=
  let s := StrictVersion_str self in
  if (String.length s <=? 3)%nat then s ++ ".0" else s.

(** The functions of Python's [operator] module that [ops] holds, at two
    versions: [operator.lt(a, b)] is [a < b], which [Version.__lt__] answers
    with [_cmp(a, b) < 0], and so on; [operator.xor(a, b)] is [a ^ b], that is
    [a.__xor__(b)]. *)
Module operator.
Definition gt (a b : SolidityVersion) : bool := (_cmp a b >? 0)%Z.
Definition lt (a b : SolidityVersion) : bool := (_cmp a b <? 0)%Z.
Definition eq (a b : SolidityVersion) : bool := (_cmp a b =? 0)%Z.
Definition ge (a b : SolidityVersion) : bool := (_cmp a b >=? 0)%Z.
Definition le (a b : SolidityVersion) : bool := (_cmp a b <=? 0)%Z.
Definition xor (a b : SolidityVersion) : bool := SolidityVersion_xor a b.
End operator.

Definition MINIMAL_SOLC_VERSION : string := "0.4.11".

(** ** The pragma scanner *)

(** [OperatorVersionTuple = namedtuple('OperatorVersionTuple', ['op', 'v'])] *)
Record OperatorVersionTuple : Type := mkOperatorVersionTuple {
  op : SolidityVersion -> SolidityVersion -> bool;
  v : SolidityVersion
}.

(** The dictionary [ops]; [None] is a missing key. *)
Definition ops (key : string) : option (SolidityVersion -> SolidityVersion -> bool) :=
  if String.eqb key ">" then Some operator.gt
  else if String.eqb key "<" then Some operator.lt
  else if String.eqb key "" then Some operator.eq
  else if String.eqb key ">=" then Some operator.ge
  else if String.eqb key "<=" then Some operator.le
  else if String.eqb key "^" then Some operator.xor
  else None.

(** *** The class [\d] of a [str] pattern

    Without [re.ASCII] the class [\d] holds every character of the Unicode
    category Nd, the decimal digits of all scripts: [re] asks
    [Py_UNICODE_ISDECIMAL], as [str.isdecimal] does. *)

(** The code points of the digits zero of Unicode 14.0, the database of
    CPython 3.10 and 3.11; each is followed by the digits one to nine of its
    script. *)
Definition decimal_zeros : list N :=
  [48; 1632; 1776; 1984; 2406; 2534; 2662; 2790; 2918; 3046; 3174; 3302;
   3430; 3558; 3664; 3792; 3872; 4160; 4240; 6112; 6160; 6470; 6608; 6784;
   6800; 6992; 7088; 7232; 7248; 42528; 43216; 43264; 43472; 43504; 43600;
   44016; 65296; 66720; 68912; 69734; 69872; 69942; 70096; 70384; 70736;
   70864; 71248; 71360; 71472; 71904; 72016; 72784; 73040; 73120; 92768;
   92864; 93008; 120782; 120792; 120802; 120812; 120822; 123200; 123632;
   125264; 130032].

(** [chr(cp).isdecimal()] *)
Definition isdecimal (cp : N) : bool :=
  existsb (fun zero => (zero <=? cp) && (cp <=? zero + 9)) decimal_zeros.

(** The six payload bits of a continuation byte [10xxxxxx] of UTF-8. *)
Definition continuation (c : ascii) : option N :=
  let n := N_of_ascii c in
  if (128 <=? n) && (n <? 192) then Some (n - 128) else None.

(** The first character of a text: its code point and the number of bytes
    that encode it. *)
Definition first_char (s : string) : option (N * nat) :=
  match s with
  | EmptyString => None
  | String b0 s0 =>
      let n0 := N_of_ascii b0 in
      if n0 <? 128 then Some (n0, 1%nat)
      else if n0 <? 192 then None
      else if n0 <? 224 then
        match s0 with
        | String b1 _ =>
            match continuation b1 with
            | Some n1 => Some ((n0 - 192) * 64 + n1, 2%nat)
            | None => None
            end
        | _ => None
        end
      else if n0 <? 240 then
        match s0 with
        | String b1 (String b2 _) =>
            match continuation b1, continuation b2 with
            | Some n1, Some n2 => Some ((n0 - 224) * 4096 + n1 * 64 + n2, 3%nat)
            | _, _ => None
            end
        | _ => None
        end
      else if n0 <? 248 then
        match s0 with
        | String b1 (String b2 (String b3 _)) =>
            match continuation b1, continuation b2, continuation b3 with
            | Some n1, Some n2, Some n3 =>
                Some ((n0 - 240) * 262144 + n1 * 4096 + n2 * 64 + n3, 4%nat)
            | _, _, _ => None
            end
        | _ => None
        end
      else None
  end.

(** [\d] at the start of [s]: the number of bytes of the decimal digit that
    stands there, 0 when none does. *)
Definition decimal_width (s : string) : nat :=
  match first_char s with
  | Some (cp, width) => if isdecimal cp then width else 0%nat
  | None => 0%nat
  end.

(** The longest run of decimal digits at the start of [s], and what follows
    it: how a greedy [\d*] consumes.  [pending] counts the bytes still to
    take of the digit being read. *)
Fixpoint decimals_from (pending : nat) (s : string) {struct s} : string * string :=
  match s with
  | EmptyString => (EmptyString, EmptyString)
  | String c s' =>
      match pending with
      | S k => let (d, r) := decimals_from k s' in (String c d, r)
      | O =>
          match decimal_width s with
          | O => (EmptyString, s)
          | S k => let (d, r) := decimals_from k s' in (String c d, r)
          end
      end
  end.

Definition decimals (s : string) : string * string := decimals_from 0 s.

(** [\d+\.\d+\.\d+] at the start of [s]: the text matched and the rest.  No
    decimal digit is a dot, so the first two runs of digits are whole (a dot
    follows each); the last one is greedy. *)
Definition match_version (s : string) : option (string * string) :=
  let (d1, r1) := decimals s in
  match d1, r1 with
  | String _ _, String "." r1' =>
      let (d2, r2) := decimals r1' in
      match d2, r2 with
      | String _ _, String "." r2' =>
          let (d3, r3) := decimals r2' in
          match d3 with
          | String _ _ => Some (d1 ++ "." ++ d2 ++ "." ++ d3, r3)
          | EmptyString => None
          end
      | _, _ => None
      end
  | _, _ => None
  end.

(** The alternatives of the group [(<|>|>=|<=|\^)?], in the order the
    backtracking matcher tries them; the empty string last is the group
    left out. *)
Definition operator_alternatives : list string :=
  ["<"; ">"; ">="; "<="; "^"; ""].

(** The first alternative after which the version matches. *)
Fixpoint match_alternatives (alts : list string) (s : string)
  : option (string * string * string) :=
  match alts with
  | [] => None
  | o :: alts' =>
      match (if prefix o s then match_version (drop (String.length o) s) else None) with
      | Some (ver, rest) => Some (o, ver, rest)
      | None => match_alternatives alts' s
      end
  end.

(** [comp_version_rex.match] at the start of [s]: operator, version, rest. *)
Definition comp_version_rex_match (s : string) : option (string * string * string) :=
  match_alternatives operator_alternatives s.

(** [comp_version_rex.findall(l)]: the matcher is tried at each position from
    the left; after a match the scan resumes where the match ended ([skip]
    counts the characters of the match still to pass).  The pattern has three
    groups (the named operator, the alternation inside it, the version), so
    each element is a 3-tuple; a group that took no part reads as the empty
    string. *)
Fixpoint findall_from (skip : nat) (s : string) {struct s}
  : list (string * string * string) :=
  match s with
  | EmptyString => []
  | String _ s' =>
      match skip with
      | S k => findall_from k s'
      | O =>
          match comp_version_rex_match s with
          | Some (o, ver, _) =>
              (o, o, ver) :: findall_from (String.length o + String.length ver - 1) s'
          | None => findall_from 0 s'
          end
      end
  end.

Definition comp_version_rex_findall (l : string) : list (string * string * string) :=
  findall_from 0 l.

(** The list [conditions] of [parse_version]:
    [OperatorVersionTuple(ops[v[1]], SolidityVersion(v[2]))] for each match.
    The version of a match is not the empty string, so the constructor
    parses it: a match with a digit outside ASCII is a ValueError of
    [StrictVersion.parse], raised here, before the [try]. *)
Definition condition_of (m : string * string * string) : result OperatorVersionTuple :=
  let '(_, m1, m2) := m in
  match ops m1 with
  | None => Raise (KeyError m1)
  | Some f => ver <- SolidityVersion_new m2 ;; Ok (mkOperatorVersionTuple f ver)
  end.

Definition conditions_of (l : string) : result (list OperatorVersionTuple) :=
  for_each condition_of (comp_version_rex_findall l).

(** The local function [fullfills_all_conditions] of [parse_version]. *)
Definition fullfills_all_conditions
  (conditions : list OperatorVersionTuple) (x : SolidityVersion) : bool :=
  forallb (fun cond => op cond x (v cond)) conditions.

(** [min(iterable)]: the first item is the candidate, a later item replaces
    it when it is [<] the candidate; an empty iterable is a [ValueError]. *)
Fixpoint min_from (cur : SolidityVersion) (xs : list SolidityVersion) : SolidityVersion :=
  match xs with
  | [] => cur
  | x :: xs' => min_from (if operator.lt x cur then x else cur) xs'
  end.

Definition py_min (xs : list SolidityVersion) : result SolidityVersion :=
  match xs with
  | [] => Raise (ValueError "min() arg is an empty sequence")
  | x :: xs' => Ok (min_from x xs')
  end.

(** [max(iterable)] over a lazy iterable whose items may raise when they are
    produced ([map(parse_version, files)]): the first item is the candidate,
    a later item replaces it when it is [>] the candidate; the first exception
    ends the iteration. *)
Fixpoint max_from (cur : SolidityVersion) (it : list (result SolidityVersion))
  : result SolidityVersion :=
  match it with
  | [] => Ok cur
  | r :: it' => x <- r ;; max_from (if operator.gt x cur then x else cur) it'
  end.

Definition py_max (it : list (result SolidityVersion)) : result SolidityVersion :=
  match it with
  | [] => Raise (ValueError "max() arg is an empty sequence")
  | r :: it' => x <- r ;; max_from x it'
  end.

(** [SOLC_VERSIONS[-1]] *)
Definition last_item (xs : list SolidityVersion) : result SolidityVersion :=
  match xs with
  | [] => Raise (IndexError "list index out of range")
  | x :: xs' => Ok (last xs' x)
  end.

(** The test of the loop of [parse_version]. *)
Definition eligible (l : string) : bool :=
  str_in "pragma" l && negb (str_in "experimental" l).

(** [parse_version(source)], on the lines [readlines] returned for [source]
    and the global [SOLC_VERSIONS].  The first eligible line ends the loop, by
    [return] or by [raise]; the [else] of the [for] runs when no line was
    eligible.  Only the [min] is inside the [try]. *)
Fixpoint parse_version (SOLC_VERSIONS : list SolidityVersion) (lines : list string)
  : result SolidityVersion :=
  match lines with
  | [] => last_item SOLC_VERSIONS
  | l :: lines' =>
      if eligible l then
        conditions <- conditions_of l ;;
        match py_min (filter (fullfills_all_conditions conditions) SOLC_VERSIONS) with
        | Ok m => Ok m
        | Raise (ValueError _) =>
            Raise (CompilerVersionNotSupported "Conflicting Compiler Requirements")
        | Raise e => Raise e
        end
      else parse_version SOLC_VERSIONS lines'
  end.

(** ** The catalog of supported compilers *)

(** One element of the JSON list GitHub answers with: [release["tag_name"]]
    and the [asset["name"]] of each element of [release["assets"]]. *)
Record Release : Type := mkRelease {
  tag_name : string;
  assets : list string
}.

(** What the two collaborators of [set_supported_solc_versions] answer:
    [requests.get(RELEASES_LIST).json()], [None] when it raises a
    [RequestException], and [get_installed_solc_versions()].  The reply of
    GitHub is taken to be a release listing, the JSON the endpoint documents:
    a list of objects that each have a string 'tag_name' and a list 'assets'
    of objects with a string 'name'.  A reply of another shape (the object
    GitHub sends when its rate limit is hit, a release without 'assets'), on
    which the loop raises TypeError or KeyError, is not a value of this
    type: what is proved of the online branch is proved of release
    listings. *)
Record Environment : Type := mkEnvironment {
  releases_json : option (list Release);
  get_installed_solc_versions : list string
}.

(** [sorted(versions)]: a stable sort by [<]; the insertion puts an item
    after the items that are not greater than it. *)
Fixpoint insert_sorted (x : SolidityVersion) (xs : list SolidityVersion)
  : list SolidityVersion :=
  match xs with
  | [] => [x]
  | y :: xs' => if operator.lt x y then x :: xs else y :: insert_sorted x xs'
  end.

Definition sorted (xs : list SolidityVersion) : list SolidityVersion :=
  fold_left (fun acc x => insert_sorted x acc) xs [].

(** The [for]/[else] over [release["assets"]]. *)
Definition has_static_binary (release : Release) : bool :=
  existsb (fun name => String.eqb name "solc-static-linux") (assets release).

(** The loop over [releases], [versions] being the list built so far.  The
    new version is read as soon as it is built, for the log. *)
Fixpoint scan_releases (releases : list Release) (versions : list SolidityVersion)
  : result (list SolidityVersion) :=
  match releases with
  | [] => Ok versions
  | release :: releases' =>
      newversion <- SolidityVersion_new (tail (tag_name release)) ;;
      minimal <- SolidityVersion_new MINIMAL_SOLC_VERSION ;;
      if operator.lt newversion minimal then scan_releases releases' versions
      else if negb (has_static_binary release) then scan_releases releases' versions
      else scan_releases releases' (versions ++ [newversion])
  end.

(** [[v for v in versions if v >= SolidityVersion(MINIMAL_SOLC_VERSION)]]:
    the comparison reads the attributes of [v]. *)
Fixpoint keep_supported (versions : list (option SolidityVersion))
  : result (list SolidityVersion) :=
  match versions with
  | [] => Ok []
  | self :: versions' =>
      minimal <- SolidityVersion_new MINIMAL_SOLC_VERSION ;;
      x <- attributes self ;;
      kept <- keep_supported versions' ;;
      Ok (if operator.ge x minimal then x :: kept else kept)
  end.

(** [set_supported_solc_versions()].  The argument [SOLC_VERSIONS] is the
    global before the call; the result pairs what the call does (returns, or
    raises) with the global after it.  The global is assigned once, at the
    end of either branch, so a call that raises leaves it as it was. *)
Definition set_supported_solc_versions (env : Environment)
  (SOLC_VERSIONS : list SolidityVersion) : result unit * list SolidityVersion :=
  match releases_json env with
  | None =>
      match (versions <- for_each (fun s => SolidityVersion_init (tail s))
                                  (get_installed_solc_versions env) ;;
             keep_supported versions) with
      | Raise e => (Raise e, SOLC_VERSIONS)
      | Ok kept => (Ok tt, kept)
      end
  | Some releases =>
      match scan_releases releases [] with
      | Raise e => (Raise e, SOLC_VERSIONS)
      | Ok versions => (Ok tt, sorted versions)
      end
  end.

(** ** compile_solfiles *)

(** [os.path.join(a, b)] of [posixpath]. *)
Definition os_path_join (a b : string) : string :=
  if startswith b "/" then b
  else if String.eqb a "" || endswith_char a "/" then a ++ b
  else a ++ "/" ++ b.

(** The local function [complete_remapping] of [compile_solfiles]; the
    unpacking [name, old_path = ...] needs exactly two parts. *)
Definition complete_remapping (proj_dir remapping : string) : result string :=
  match str_split "=" remapping with
  | [name; old_path] =>
      let new_path := os_path_join proj_dir old_path in
      Ok (name ++ "=" ++ new_path)
  | [] | [_] => Raise (ValueError "not enough values to unpack (expected 2, got 1)")
  | _ => Raise (ValueError "too many values to unpack (expected 2)")
  end.

(** The branch [if solc_version is None:] of [compile_solfiles]: the catalog
    is refreshed, an empty catalog is refused, and the version is
    [max(map(parse_version, files))].  [parse] is [parse_version] as a
    function of the refreshed catalog and of a file, whatever a file is
    given by. *)
Definition choose_solc_version {Source : Type}
  (parse : list SolidityVersion -> Source -> result SolidityVersion)
  (env : Environment) (files : list Source) (SOLC_VERSIONS : list SolidityVersion)
  : result SolidityVersion * list SolidityVersion :=
  match set_supported_solc_versions env SOLC_VERSIONS with
  | (Raise e, SOLC_VERSIONS') => (Raise e, SOLC_VERSIONS')
  | (Ok _, SOLC_VERSIONS') =>
      if (List.length SOLC_VERSIONS' =? 0)%nat
      then (Raise (CompilerVersionNotSupported
                     "No compiler available. No connection to GitHub?"),
            SOLC_VERSIONS')
      else (py_max (map (parse SOLC_VERSIONS') files), SOLC_VERSIONS')
  end.

(** That branch for files that were opened and read: a file is given by its
    lines. *)
Definition compile_solfiles_solc_version (env : Environment)
  (files : list (list string)) (SOLC_VERSIONS : list SolidityVersion)
  : result SolidityVersion * list SolidityVersion :=
  choose_solc_version parse_version env files SOLC_VERSIONS.

(** ** get_sol_files *)

(** [s.endswith(suffix)] *)
Fixpoint endswith (s suffix : string) : bool :=
  String.eqb s suffix ||
  match s with
  | EmptyString => false
  | String _ s' => endswith s' suffix
  end.

(** One item of [os.walk(project_root)]: a directory path, its
    subdirectories and its files. *)
Definition walk_entry : Type := string * list string * list string.

(** The test that sends a '.sol' file of the directory [p] to [sources]
    rather than to [test_sources]. *)
Definition is_source_dir (project_root p : string) : bool :=
  negb (str_in "node_modules" p) &&
  negb (str_in "/test/" (drop (String.length project_root) p)) &&
  negb (endswith p "/test").

(** The inner loop, over the files of the directory [p]; [lists] is the
    pair of [sources] and [test_sources] built so far. *)
Fixpoint scan_files (project_root p : string) (fs : list string)
  (lists : list string * list string) : list string * list string :=
  match fs with
  | [] => lists
  | f :: fs' =>
      scan_files project_root p fs'
        (if endswith f ".sol" then
           if is_source_dir project_root p
           then ((fst lists ++ [os_path_join p f])%list, snd lists)
           else (fst lists, (snd lists ++ [os_path_join p f])%list)
         else lists)
  end.

(** The outer loop, over what [os.walk] yields. *)
Fixpoint scan_walk (project_root : string) (walk : list walk_entry)
  (lists : list string * list string) : list string * list string :=
  match walk with
  | [] => lists
  | (p, _, fs) :: walk' =>
      scan_walk project_root walk' (scan_files project_root p fs lists)
  end.

(** [get_sol_files(project_root)], on what [os.walk(project_root)] yields. *)
Definition get_sol_files (walk : list walk_entry) (project_root : string)
  : list string :=
  let '(sources, test_sources) := scan_walk project_root walk ([], []) in
  if (0 <? List.length sources)%nat then sources else test_sources.

(** ** The rest of compile_solfiles, and compile_project *)

(** [posixpath.normpath(path)] *)
Definition normpath (path : string) : string :=
  if String.eqb path "" then "."
  else
    let initial_slashes : nat :=
      if startswith path "/"
      then if startswith path "//" && negb (startswith path "///")
           then 2%nat else 1%nat
      else 0%nat in
    let new_comps : list string :=
      fold_left
        (fun new_comps comp =>
           if String.eqb comp "" || String.eqb comp "." then new_comps
           else if negb (String.eqb comp "..")
                   || ((initial_slashes =? 0)%nat
                       && (List.length new_comps =? 0)%nat)
                   || (negb (List.length new_comps =? 0)%nat
                       && String.eqb (last new_comps "") "..")
                then (new_comps ++ [comp])%list
                else if negb (List.length new_comps =? 0)%nat
                     then removelast new_comps
                     else new_comps)
        (str_split "/" path) [] in
    let joined := String.concat "/" new_comps in
    let path' :=
      match initial_slashes with
      | O => joined
      | 1%nat => "/" ++ joined
      | _ => "//" ++ joined
      end in
    if String.eqb path' "" then "." else path'.

(** [posixpath.abspath(path)], [cwd] being what [os.getcwd()] returns. *)
Definition abspath (cwd path : string) : string :=
  normpath (if startswith path "/" then path else os_path_join cwd path).

(** The exception [solcx.exceptions.SolcError] with the attributes
    [SolidityCompilationException] copies. *)
Record SolcError : Type := mkSolcError {
  command : list string;
  return_code : Z;
  stdin_data : string;
  stderr_data : string;
  stdout_data : string;
  message : string
}.

(** What [compile_solfiles] and [compile_project] raise: the exceptions of
    the steps above, and three more. *)
Inductive compile_exception : Type :=
| Raised (e : exception)
| NoSolidityProject (dir : string)
| AssertionError (msg : string)
| SolidityCompilationException (solc_exception : SolcError) (files : list string).

Inductive outcome (A : Type) : Type :=
| Returned (a : A)
| Failed (e : compile_exception).

Arguments Returned {A} a.
Arguments Failed {A} e.

(** How [install_solc] ends, as far as [compile_solfiles] tells its
    exceptions apart. *)
Inductive install_result : Type :=
| Installed
| ConnectionError
| CalledProcessError.

(** The keyword arguments of [solc_wrapper]. *)
Record compiler_kwargs : Type := mkCompilerKwargs {
  import_remappings : list string;
  allow_paths : string;
  source_files : list string;
  solc_binary : string;
  combined_json : string
}.

(** What the collaborators of [compile_solfiles] and [compile_project]
    answer when the script calls them: the file system ([os.walk];
    [readlines], the lines of a source file opened as UTF-8 text, or the
    OSError of [open] or the UnicodeDecodeError of [readlines]; [os.getcwd],
    [os.path.isdir], [os.path.exists]), the helper [find_node_modules_dir]
    of [utils], and solcx ([get_solc_folder], [install_solc],
    [solc_wrapper], which returns its standard output or raises a SolcError,
    and [_parse_compiler_output], whose result is of the type [Output]). *)
Record Toolchain (Output : Type) : Type := mkToolchain {
  os_walk : string -> list walk_entry;
  readlines : string -> result (list string);
  find_node_modules_dir : string -> option string;
  getcwd : string;
  isdir : string -> bool;
  path_exists : string -> bool;
  get_solc_folder : string;
  install_solc : string -> install_result;
  solc_wrapper : compiler_kwargs -> SolcError + string;
  _parse_compiler_output : string -> Output
}.

Arguments os_walk {Output} t _.
Arguments readlines {Output} t _.
Arguments find_node_modules_dir {Output} t _.
Arguments getcwd {Output} t.
Arguments isdir {Output} t _.
Arguments path_exists {Output} t _.
Arguments get_solc_folder {Output} t.
Arguments install_solc {Output} t _.
Arguments solc_wrapper {Output} t _.
Arguments _parse_compiler_output {Output} t _.

Definition OUTPUT_VALUES : list string :=
  ["abi"; "ast"; "bin-runtime"; "srcmap-runtime"].

(** An explicit [solc_version] argument: a version object or a string; the
    f-strings format either with [str]. *)
Inductive version_argument : Type :=
| VersionObject (x : SolidityVersion)
| VersionText (s : string).

Definition format_version (a : version_argument) : string :=
  match a with
  | VersionObject x => SolidityVersion_str x
  | VersionText s => s
  end.

(** [_get_binary(solc_version)] *)
Definition _get_binary {Output : Type} (tc : Toolchain Output)
  (solc_version : version_argument) : outcome string :=
  let binary := os_path_join (get_solc_folder tc)
                             ("solc-v" ++ format_version solc_version) in
  if negb (path_exists tc binary)
  then Failed (AssertionError ("solc binary not found for version: "
                               ++ format_version solc_version))
  else Returned binary.

(** The first part of [compile_solfiles]: the list [remappings] after the
    explicit ones are completed and the two automatic ones are appended. *)
Definition compile_solfiles_remappings {Output : Type} (tc : Toolchain Output)
  (proj_dir : string) (remappings : option (list string)) : result (list string) :=
  let remappings := match remappings with None => [] | Some r => r end in
  remappings <- for_each (complete_remapping proj_dir) remappings ;;
  match find_node_modules_dir tc proj_dir with
  | None => Ok remappings
  | Some node_modules_dir =>
      let zeppelin_path :=
        abspath (getcwd tc) (os_path_join node_modules_dir "zeppelin-solidity") in
      let open_zeppelin_path :=
        abspath (getcwd tc) (os_path_join node_modules_dir "openzeppelin-solidity") in
      let remappings :=
        if isdir tc zeppelin_path
        then (remappings ++ [("zeppelin-solidity=" ++ zeppelin_path)%string])%list
        else remappings in
      let remappings :=
        if isdir tc open_zeppelin_path
        then (remappings ++
              [("openzeppelin-solidity=" ++ open_zeppelin_path)%string])%list
        else remappings in
      Ok remappings
  end.

(** [parse_version(source)] from its first statement: the file is opened
    and read, then scanned. *)
Definition parse_version_source {Output : Type} (tc : Toolchain Output)
  (SOLC_VERSIONS : list SolidityVersion) (source : string) : result SolidityVersion :=
  lines <- readlines tc source ;; parse_version SOLC_VERSIONS lines.

(** [compile_solfiles(files, proj_dir, solc_version, output_values,
    remappings)], with the global [SOLC_VERSIONS] before and after.  [max]
    draws the files one at a time: a file is opened when the files before it
    have been scanned. *)
Definition compile_solfiles {Output : Type} (tc : Toolchain Output)
  (env : Environment) (files : list string) (proj_dir : string)
  (solc_version : option version_argument) (output_values : list string)
  (remappings : option (list string)) (SOLC_VERSIONS : list SolidityVersion)
  : outcome Output * list SolidityVersion :=
  match compile_solfiles_remappings tc proj_dir remappings with
  | Raise e => (Failed (Raised e), SOLC_VERSIONS)
  | Ok remappings =>
      let '(chosen, SOLC_VERSIONS') :=
        match solc_version with
        | Some a => (Ok a, SOLC_VERSIONS)
        | None =>
            let '(r, G) :=
              choose_solc_version (parse_version_source tc) env files
                                  SOLC_VERSIONS in
            (x <- r ;; Ok (VersionObject x), G)
        end in
      match chosen with
      | Raise e => (Failed (Raised e), SOLC_VERSIONS')
      | Ok solc_version =>
          match install_solc tc ("v" ++ format_version solc_version) with
          | ConnectionError | CalledProcessError =>
              (Failed (Raised (CompilerVersionNotSupported
                                 ("Failed to install v"
                                  ++ format_version solc_version ++ " compiler."))),
               SOLC_VERSIONS')
          | Installed =>
              match _get_binary tc solc_version with
              | Failed e => (Failed e, SOLC_VERSIONS')
              | Returned binary =>
                  let combined_json := String.concat "," output_values in
                  let kwargs :=
                    {| import_remappings := remappings;
                       allow_paths := proj_dir;
                       source_files := files;
                       solc_binary := binary;
                       combined_json := combined_json |} in
                  match solc_wrapper tc kwargs with
                  | inr stdoutdata =>
                      (Returned (_parse_compiler_output tc stdoutdata),
                       SOLC_VERSIONS')
                  | inl e =>
                      (Failed (SolidityCompilationException e files),
                       SOLC_VERSIONS')
                  end
              end
          end
      end
  end.

(** [compile_project(path, remappings)]; the argument [remappings] is not
    passed on. *)
Definition compile_project {Output : Type} (tc : Toolchain Output)
  (env : Environment) (path : string) (remappings : option (list string))
  (SOLC_VERSIONS : list SolidityVersion)
  : outcome Output * list SolidityVersion :=
  let sources := get_sol_files (os_walk tc path) path in
  match sources with
  | [] => (Failed (NoSolidityProject path), SOLC_VERSIONS)
  | _ :: _ => compile_solfiles tc env sources path None OUTPUT_VALUES None SOLC_VERSIONS
  end.

(** * Vocabulary of the statements *)

(** The key of a version in the order [_cmp] computes: (major, minor, patch,
    letter, number), where a version without prerelease has a letter above
    every character, so that a prerelease sorts before its release. *)
Definition pre_key (p : option (ascii * N)) : N * N :=
  match p with
  | None => (256, 0)
  | Some (c, n) => (N_of_ascii c, n)
  end.

Definition key_lt (a b : SolidityVersion) : Prop :=
  let '(a0, a1, a2) := version a in
  let '(b0, b1, b2) := version b in
  let '(a3, a4) := pre_key (prerelease a) in
  let '(b3, b4) := pre_key (prerelease b) in
  a0 < b0 \/ a0 = b0 /\
  (a1 < b1 \/ a1 = b1 /\
  (a2 < b2 \/ a2 = b2 /\
  (a3 < b3 \/ a3 = b3 /\ a4 < b4))).

(** A non-empty run of ASCII digits: what [\d+] matches under [re.ASCII],
    and in ASCII text. *)
Fixpoint all_digits (s : string) : bool :=
  match s with
  | EmptyString => true
  | String c s' => isdigit c && all_digits s'
  end.

Definition number (d : string) : Prop := d <> EmptyString /\ all_digits d = true.

(** The text after a greedy run of digits does not go on with a digit. *)
Definition no_digit_ahead (r : string) : Prop :=
  match r with
  | EmptyString => True
  | String c _ => isdigit c = false
  end.

(** The condition [c] is the one a match [m] of [comp_version_rex] stands
    for: the function [ops] holds for its operator, and the release of its
    three numbers. *)
Definition condition_reads (m : string * string * string)
  (c : OperatorVersionTuple) : Prop :=
  exists o d1 d2 d3,
    m = (o, o, d1 ++ "." ++ d2 ++ "." ++ d3) /\
    ops o = Some (op c) /\
    v c = mkVersion (int d1, int d2, int d3) None.

(** The first line of a file that [parse_version] acts on. *)
Definition first_eligible (lines : list string) : option string :=
  find eligible lines.

(** The message of the exception [parse_version] raises. *)
Definition conflicting : exception :=
  CompilerVersionNotSupported "Conflicting Compiler Requirements".

(** The release [a.b.c]: a version without prerelease. *)
Definition release (a b c : N) : SolidityVersion := mkVersion (a, b, c) None.

(** The components of the tuple [version]. *)
Definition major (x : SolidityVersion) : N := fst (fst (version x)).
Definition minor (x : SolidityVersion) : N := snd (fst (version x)).
Definition patch (x : SolidityVersion) : N := snd (version x).

(** [c not in s] *)
Fixpoint no_char (c : ascii) (s : string) : bool :=
  match s with
  | EmptyString => true
  | String a s' => negb (Ascii.eqb a c) && no_char c s'
  end.

(** A list in ascending order: each item is [<=] all the items after it. *)
Definition ascending : list SolidityVersion -> Prop :=
  StronglySorted (fun a b => operator.le a b = true).

(** The identifier of an installed compiler, [vMAJOR.MINOR.PATCH]. *)
Definition installed_identifier (d : string * string * string) : string :=
  let '(d1, d2, d3) := d in "v" ++ d1 ++ "." ++ d2 ++ "." ++ d3.
(** The text of a version string: two numbers, a third one or not, a
    prerelease letter and number or not. *)
Definition version_text (d1 d2 : string) (d3 : option string)
  (pre : option (ascii * string)) : string :=
  d1 ++ "." ++ d2 ++
  match d3 with Some d => "." ++ d | None => "" end ++
  match pre with Some (c, d) => String c d | None => "" end.

(** The letter of a prerelease is one of the two [parse] accepts. *)
Definition prerelease_letter (x : SolidityVersion) : Prop :=
  match prerelease x with
  | Some (c, _) => c = "a"%char \/ c = "b"%char
  | None => True
  end.
(** The release [r] of the listing brings the version [x] into the catalog:
    its tag names [x], [x] is not below the minimal version, and a static
    Linux binary is among its assets. *)
Definition supported_release (r : Release) (x : SolidityVersion) : Prop :=
  SolidityVersion_new (tail (tag_name r)) = Ok x /\
  operator.lt x (release 0 4 11) = false /\
  has_static_binary r = true.
(** [s.count(c)] *)
Fixpoint count_char (c : ascii) (s : string) : nat :=
  match s with
  | EmptyString => 0
  | String a s' => (if Ascii.eqb a c then 1 else 0) + count_char c s'
  end.
(** [needle] occurs in [hay]; [s] ends with [suffix]. *)
Definition occurs (needle hay : string) : Prop :=
  exists before after, hay = before ++ needle ++ after.

Definition ends_with (s suffix : string) : Prop :=
  exists before, s = before ++ suffix.

(** A directory of sources, [rel] being its path after the characters of
    [project_root]: 'node_modules' occurs nowhere in its path, '/test/' does
    not occur in [rel], and the path does not end with '/test'. *)
Definition source_directory (project_root rel : string) : Prop :=
  ~ occurs "node_modules" (project_root ++ rel) /\
  ~ occurs "/test/" rel /\
  ~ ends_with (project_root ++ rel) "/test".

(** The '.sol' files of a walk that stand in a directory for which
    [is_source_dir] answers [kind], joined to their directory, in the order
    of the walk. *)
Definition sol_files_of (kind : bool) (project_root : string)
  (walk : list walk_entry) : list string :=
  flat_map (fun e : walk_entry =>
              let '(p, _, fs) := e in
              if Bool.eqb (is_source_dir project_root p) kind
              then map (os_path_join p) (filter (fun f => endswith f ".sol") fs)
              else [])
           walk.
(** *** Constraints, as a pragma line writes them *)















(** The Arabic-Indic digit [d] (U+0660 + d) in UTF-8: a decimal digit
    outside ASCII. *)
Definition arabic_indic (d : N) : string :=
  String (ascii_of_N 217) (String (ascii_of_N (160 + d)) EmptyString).

(** The first eligible line of the file, when there is one, is ASCII text:
    the conditions of the file, if any, are read from ASCII text. *)
Definition ascii_pragma (lines : list string) : Prop :=
  forall l, first_eligible lines = Some l -> isascii l = true.

(** Why the scan of a source file fails, other than by a
    CompilerVersionNotSupported: the file cannot be opened and read, or its
    first eligible line is not ASCII text and the ValueError of a version
    that does not parse comes out. *)
Definition source_failure {Output : Type} (tc : Toolchain Output)
  (source : string) (e : exception) : Prop :=
  readlines tc source = Raise e \/
  exists lines l msg,
    readlines tc source = Ok lines /\ first_eligible lines = Some l /\
    isascii l = false /\ e = ValueError msg.

(** An example of collaborators: a project with one contract and one test,
    and an installer that fails. *)
Definition failing_installer : Toolchain unit :=
  mkToolchain unit
    (fun _ => [("/p/contracts", [], ["A.sol"]); ("/p/test", [], ["T.sol"])])
    (fun _ => Ok ["pragma solidity ^0.5.0;"])
    (fun _ => None) "/" (fun _ => false) (fun _ => true) "/solc"
    (fun _ => ConnectionError) (fun _ => inr "{}") (fun _ => tt).

(** * Properties *)

(** ** The order of versions *)

Lemma N_of_ascii_inj (c d : ascii) : N_of_ascii c = N_of_ascii d -> c = d.
Proof.
  intros H. rewrite <- (ascii_N_embedding c), <- (ascii_N_embedding d).
  now rewrite H.
Qed.

Ltac case_tests :=
  repeat match goal with
  | |- context [N.eqb ?x ?y] => destruct (N.eqb_spec x y); subst; simpl
  | |- context [N.ltb ?x ?y] => destruct (N.ltb_spec x y); simpl
  | |- context [Ascii.eqb ?x ?y] => destruct (Ascii.eqb_spec x y); subst; simpl
  end.

(** What [_cmp] returns, in terms of the key. *)
Lemma cmp_spec (a b : SolidityVersion) :
  (_cmp a b = (-1)%Z /\ key_lt a b) \/
  (_cmp a b = 0%Z /\ a = b) \/
  (_cmp a b = 1%Z /\ key_lt b a).
Proof.
  destruct a as [[[a0 a1] a2] pa], b as [[[b0 b1] b2] pb].
  unfold _cmp, key_lt, tuple3_ne, tuple3_lt; simpl.
  destruct pa as [[c n]|], pb as [[d m]|]; unfold pre_eq, pre_lt; simpl;
    try pose proof (N_ascii_bounded c); try pose proof (N_ascii_bounded d);
    case_tests;
    try (assert (N_of_ascii c <> N_of_ascii d)
           by (intros E; apply N_of_ascii_inj in E; congruence));
    first [ left; split; [reflexivity | lia]
          | right; left; split; reflexivity
          | right; right; split; [reflexivity | lia] ].
Qed.

Lemma key_lt_irrefl (a : SolidityVersion) : ~ key_lt a a.
Proof.
  destruct a as [[[a0 a1] a2] pa]. unfold key_lt; simpl.
  destruct (pre_key pa). lia.
Qed.

Lemma key_lt_trans (a b c : SolidityVersion) : key_lt a b -> key_lt b c -> key_lt a c.
Proof.
  destruct a as [[[a0 a1] a2] pa], b as [[[b0 b1] b2] pb], c as [[[c0 c1] c2] pc].
  unfold key_lt; simpl.
  destruct (pre_key pa), (pre_key pb), (pre_key pc). lia.
Qed.

Lemma key_lt_asym (a b : SolidityVersion) : key_lt a b -> ~ key_lt b a.
Proof.
  intros H1 H2. exact (key_lt_irrefl a (key_lt_trans a b a H1 H2)).
Qed.

(** The comparisons of [operator], read on the key. *)
Lemma lt_iff (a b : SolidityVersion) : operator.lt a b = true <-> key_lt a b.
Proof.
  unfold operator.lt.
  destruct (cmp_spec a b) as [[E H]|[[E H]|[E H]]]; rewrite E; simpl;
    split; intros K; try discriminate; try assumption; try reflexivity.
  - subst. now apply key_lt_irrefl in K.
  - now apply key_lt_asym in K.
Qed.

Lemma gt_iff (a b : SolidityVersion) : operator.gt a b = true <-> key_lt b a.
Proof.
  unfold operator.gt.
  destruct (cmp_spec a b) as [[E H]|[[E H]|[E H]]]; rewrite E; simpl;
    split; intros K; try discriminate; try assumption; try reflexivity.
  - now apply key_lt_asym in K.
  - subst. now apply key_lt_irrefl in K.
Qed.

Lemma le_iff (a b : SolidityVersion) : operator.le a b = true <-> key_lt a b \/ a = b.
Proof.
  unfold operator.le.
  destruct (cmp_spec a b) as [[E H]|[[E H]|[E H]]]; rewrite E; simpl;
    split; intros K; try discriminate; try reflexivity; auto.
  destruct K as [K|K].
  - now apply key_lt_asym in K.
  - subst. now apply key_lt_irrefl in H.
Qed.

Lemma ge_iff (a b : SolidityVersion) : operator.ge a b = true <-> key_lt b a \/ a = b.
Proof.
  unfold operator.ge.
  destruct (cmp_spec a b) as [[E H]|[[E H]|[E H]]]; rewrite E; simpl;
    split; intros K; try discriminate; try reflexivity; auto.
  destruct K as [K|K].
  - now apply key_lt_asym in K.
  - subst. now apply key_lt_irrefl in H.
Qed.

Lemma eq_iff (a b : SolidityVersion) : operator.eq a b = true <-> a = b.
Proof.
  unfold operator.eq.
  destruct (cmp_spec a b) as [[E H]|[[E H]|[E H]]]; rewrite E; simpl;
    split; intros K; try discriminate; try reflexivity; auto; subst;
    now apply key_lt_irrefl in H.
Qed.

Lemma le_refl (a : SolidityVersion) : operator.le a a = true.
Proof. apply le_iff. now right. Qed.

Lemma le_trans (a b c : SolidityVersion) :
  operator.le a b = true -> operator.le b c = true -> operator.le a c = true.
Proof.
  rewrite !le_iff. intros [H1|H1] [H2|H2]; subst; auto.
  left. eapply key_lt_trans; eassumption.
Qed.

Lemma lt_false_le (a b : SolidityVersion) :
  operator.lt a b = false -> operator.le b a = true.
Proof.
  unfold operator.lt, operator.le.
  destruct (cmp_spec a b) as [[E H]|[[E H]|[E H]]]; rewrite E; simpl;
    intros K; try discriminate.
  - subst. apply le_refl.
  - apply le_iff. now left.
Qed.

Lemma lt_true_le (a b : SolidityVersion) :
  operator.lt a b = true -> operator.le a b = true.
Proof. rewrite lt_iff, le_iff. auto. Qed.

Lemma gt_false_le (a b : SolidityVersion) :
  operator.gt a b = false -> operator.le a b = true.
Proof.
  unfold operator.gt.
  destruct (cmp_spec a b) as [[E H]|[[E H]|[E H]]]; rewrite E; simpl;
    intros K; try discriminate; apply le_iff; auto.
Qed.

Lemma gt_true_le (a b : SolidityVersion) :
  operator.gt a b = true -> operator.le b a = true.
Proof. rewrite gt_iff, le_iff. auto. Qed.

Lemma le_antisym (a b : SolidityVersion) :
  operator.le a b = true -> operator.le b a = true -> a = b.
Proof.
  rewrite !le_iff. intros [H1|H1] [H2|H2]; auto.
  now apply key_lt_asym in H1.
Qed.

(** C3.  The function [ops] holds for the caret is [operator.xor], and
    [candidate ^ requirement] is true exactly when the two versions have the
    same major component and the pair (minor, patch) of the candidate is
    greater than or equal to the pair (minor, patch) of the requirement, in
    the order of pairs. *)
Theorem caret_same_major_and_minor_patch_ge :
  ops "^" = Some operator.xor /\
  forall candidate requirement : SolidityVersion,
    operator.xor candidate requirement = true <->
    major candidate = major requirement /\
    (minor requirement < minor candidate \/
     minor requirement = minor candidate /\ patch requirement <= patch candidate).
Proof.
  split; [reflexivity|].
  intros [[[c0 c1] c2] pc] [[[r0 r1] r2] pr].
  unfold operator.xor, SolidityVersion_xor, tuple2_ge, major, minor, patch; simpl.
  rewrite andb_true_iff, N.eqb_eq.
  destruct (N.eqb_spec c1 r1) as [E1|E1]; simpl.
  - destruct (N.eqb_spec c2 r2) as [E2|E2]; simpl.
    + subst. intuition lia.
    + rewrite N.leb_le. intuition lia.
  - rewrite N.leb_le. intuition lia.
Qed.

(** ** [min] and [max] *)

Lemma min_from_spec (xs : list SolidityVersion) : forall cur,
  In (min_from cur xs) (cur :: xs) /\
  forall x, In x (cur :: xs) -> operator.le (min_from cur xs) x = true.
Proof.
  induction xs as [|y xs IH]; intros cur; simpl.
  - split; [now left|]. intros x [<-|[]]. apply le_refl.
  - destruct (IH (if operator.lt y cur then y else cur)) as [Hin Hle].
    split.
    + destruct Hin as [Hin|Hin]; [|now auto].
      rewrite <- Hin. destruct (operator.lt y cur); auto.
    + assert (Hc : operator.le (if operator.lt y cur then y else cur) cur = true).
      { destruct (operator.lt y cur) eqn:E; [now apply lt_true_le | apply le_refl]. }
      assert (Hy : operator.le (if operator.lt y cur then y else cur) y = true).
      { destruct (operator.lt y cur) eqn:E; [apply le_refl | now apply lt_false_le]. }
      intros x [<-|[<-|Hx]].
      * eapply le_trans; [apply Hle; now left | exact Hc].
      * eapply le_trans; [apply Hle; now left | exact Hy].
      * apply Hle. now right.
Qed.

Lemma max_from_spec (xs : list SolidityVersion) : forall cur,
  exists m, max_from cur (map Ok xs) = Ok m /\ In m (cur :: xs) /\
            forall x, In x (cur :: xs) -> operator.le x m = true.
Proof.
  induction xs as [|y xs IH]; intros cur; simpl.
  - exists cur. split; [reflexivity|]. split; [now left|].
    intros x [<-|[]]. apply le_refl.
  - destruct (IH (if operator.gt y cur then y else cur)) as (m & Hm & Hin & Hle).
    exists m. split; [exact Hm|]. split.
    + destruct Hin as [Hin|Hin]; [|now auto].
      rewrite <- Hin. destruct (operator.gt y cur); auto.
    + assert (Hc : operator.le cur (if operator.gt y cur then y else cur) = true).
      { destruct (operator.gt y cur) eqn:E; [now apply gt_true_le | apply le_refl]. }
      assert (Hy : operator.le y (if operator.gt y cur then y else cur) = true).
      { destruct (operator.gt y cur) eqn:E; [apply le_refl | now apply gt_false_le]. }
      intros x [<-|[<-|Hx]].
      * eapply le_trans; [exact Hc | apply Hle; now left].
      * eapply le_trans; [exact Hy | apply Hle; now left].
      * apply Hle. now right.
Qed.

(** [max] over items that are all produced returns the greatest. *)
Lemma py_max_spec (xs : list SolidityVersion) :
  xs <> [] ->
  exists m, py_max (map Ok xs) = Ok m /\ In m xs /\
            forall x, In x xs -> operator.le x m = true.
Proof.
  destruct xs as [|x xs]; [congruence|]. intros _. simpl.
  apply max_from_spec.
Qed.

(** [max] ends at the first item that raises, whatever comes after it. *)
Lemma max_from_raise (xs : list SolidityVersion) (e : exception)
  (post : list (result SolidityVersion)) : forall cur,
  max_from cur (map Ok xs ++ Raise e :: post)%list = Raise e.
Proof.
  induction xs as [|y xs IH]; intros cur; simpl; [reflexivity | apply IH].
Qed.

Lemma py_max_raise (xs : list SolidityVersion) (e : exception)
  (post : list (result SolidityVersion)) :
  py_max (map Ok xs ++ Raise e :: post)%list = Raise e.
Proof.
  destruct xs as [|x xs]; simpl; [reflexivity | apply max_from_raise].
Qed.

(** A list of results is a run of produced items, followed or not by a
    first exception. *)
Lemma results_split {A : Type} (rs : list (result A)) :
  (exists xs, rs = map Ok xs) \/
  (exists xs e post, rs = (map Ok xs ++ Raise e :: post)%list).
Proof.
  induction rs as [|r rs IH].
  - left. now exists [].
  - destruct r as [a|e].
    + destruct IH as [(xs & ->)|(xs & e & post & ->)].
      * left. now exists (a :: xs).
      * right. now exists (a :: xs), e, post.
    + right. now exists [], e, rs.
Qed.

(** ** Strings and runs of digits *)

Lemma append_assoc (a b c : string) : (a ++ b) ++ c = a ++ (b ++ c).
Proof. induction a as [|x a IH]; simpl; [reflexivity | now rewrite IH]. Qed.

Lemma append_nil_r (a : string) : a ++ "" = a.
Proof. induction a as [|x a IH]; simpl; [reflexivity | now rewrite IH]. Qed.

Lemma length_append (a b : string) :
  String.length (a ++ b) = (String.length a + String.length b)%nat.
Proof. induction a as [|x a IH]; simpl; [reflexivity | now rewrite IH]. Qed.

Lemma digits_spec (s : string) :
  s = fst (digits s) ++ snd (digits s) /\
  all_digits (fst (digits s)) = true /\
  no_digit_ahead (snd (digits s)).
Proof.
  induction s as [|c s IH]; simpl.
  - repeat split.
  - destruct (isdigit c) eqn:E.
    + destruct (digits s) as [d r]. simpl in *. destruct IH as (H1 & H2 & H3).
      rewrite E, H2. repeat split; [now rewrite <- H1 | exact H3].
    + simpl. repeat split. exact E.
Qed.

Lemma digits_app (d r : string) :
  all_digits d = true -> no_digit_ahead r -> digits (d ++ r) = (d, r).
Proof.
  induction d as [|c d IH]; simpl; intros Hd Hr.
  - destruct r as [|c r]; simpl in *; [reflexivity | now rewrite Hr].
  - apply andb_true_iff in Hd. destruct Hd as [Hc Hd].
    rewrite Hc, (IH Hd Hr). reflexivity.
Qed.

Lemma dot_no_digit (r : string) : no_digit_ahead (String "." r).
Proof. reflexivity. Qed.

(** A dotted triple of numbers is a valid version string; its version is the
    triple of the three integers, without prerelease. *)
Lemma StrictVersion_parse_dotted (d1 d2 d3 : string) :
  number d1 -> number d2 -> number d3 ->
  StrictVersion_parse (d1 ++ "." ++ d2 ++ "." ++ d3) =
  Ok (mkVersion (int d1, int d2, int d3) None).
Proof.
  intros [N1 H1] [N2 H2] [N3 H3]. unfold StrictVersion_parse. cbn [append].
  rewrite (digits_app d1 _ H1 (dot_no_digit _)).
  destruct d1 as [|c1 d1]; [congruence|].
  rewrite (digits_app d2 _ H2 (dot_no_digit _)).
  destruct d2 as [|c2 d2]; [congruence|].
  pose proof (digits_app d3 "" H3 I) as E3. rewrite append_nil_r in E3.
  rewrite E3. destruct d3 as [|c3 d3]; [congruence|]. reflexivity.
Qed.

Lemma SolidityVersion_new_dotted (d1 d2 d3 : string) :
  number d1 -> number d2 -> number d3 ->
  SolidityVersion_new (d1 ++ "." ++ d2 ++ "." ++ d3) =
  Ok (mkVersion (int d1, int d2, int d3) None).
Proof.
  intros H1 H2 H3. pose proof (StrictVersion_parse_dotted d1 d2 d3 H1 H2 H3) as E.
  destruct H1 as [N1 _]. destruct d1 as [|c1 d1]; [congruence|].
  unfold SolidityVersion_new, SolidityVersion_init. cbn [append] in *.
  rewrite E. reflexivity.
Qed.

(** [parse] raises nothing but its ValueError; the constructor read at once
    adds the AttributeError of the empty string. *)
Lemma StrictVersion_parse_raises (s : string) (e : exception) :
  StrictVersion_parse s = Raise e -> exists msg, e = ValueError msg.
Proof.
  unfold StrictVersion_parse, invalid_version.
  destruct (digits s) as [mj r1].
  destruct mj as [|? ?]; [intros H; inversion H; eauto|].
  destruct r1 as [|c1 r1]; [intros H; inversion H; eauto|].
  destruct (Ascii.eqb_spec c1 "."); [subst c1|].
  2:{ destruct c1 as [[] [] [] [] [] [] [] []];
        try (intros H; inversion H; eauto); congruence. }
  destruct (digits r1) as [mn r2].
  destruct mn as [|? ?]; [intros H; inversion H; eauto|].
  repeat match goal with
         | |- context [let '(_, _) := ?p in _] => destruct p
         end.
  destruct (at_dollar _); intros H; inversion H; eauto.
Qed.

Lemma SolidityVersion_new_raises (s : string) (e : exception) :
  SolidityVersion_new s = Raise e ->
  exists msg, e = ValueError msg \/ e = AttributeError msg.
Proof.
  unfold SolidityVersion_new, SolidityVersion_init.
  destruct s as [|c s]; cbn [bind attributes].
  - intros H. inversion H. eauto.
  - destruct (StrictVersion_parse (String c s)) as [x|e'] eqn:E; cbn [bind attributes];
      [discriminate|].
    intros H. inversion H; subst.
    destruct (StrictVersion_parse_raises _ _ E) as [msg ->]. eauto.
Qed.

(** *** The class [\d] on ASCII text *)

Lemma existsb_above (cp : N) (zeros : list N) :
  Forall (fun zero => cp < zero) zeros ->
  existsb (fun zero => (zero <=? cp) && (cp <=? zero + 9)) zeros = false.
Proof.
  induction 1 as [|zero zeros Hz _ IH]; cbn [existsb]; [reflexivity|].
  rewrite IH, orb_false_r. apply andb_false_iff. left. now apply N.leb_gt.
Qed.

(** Among the ASCII characters the decimal digits are [0] to [9]. *)
Lemma isdecimal_ascii (n : N) :
  n < 128 -> isdecimal n = (48 <=? n) && (n <=? 57).
Proof.
  intros H.
  assert (E : decimal_zeros = 48 :: List.tl decimal_zeros) by reflexivity.
  unfold isdecimal. rewrite E. cbn [existsb]. rewrite existsb_above.
  - now rewrite orb_false_r.
  - unfold decimal_zeros. cbn [List.tl]. repeat (constructor; [lia|]). constructor.
Qed.

Lemma decimal_width_ascii (c : ascii) (s : string) :
  N_of_ascii c < 128 ->
  decimal_width (String c s) = if isdigit c then 1%nat else 0%nat.
Proof.
  intros H. unfold decimal_width, first_char. cbv zeta.
  rewrite (proj2 (N.ltb_lt _ _) H), (isdecimal_ascii _ H). reflexivity.
Qed.


Lemma isascii_app (a b : string) : isascii (a ++ b) = isascii a && isascii b.
Proof.
  induction a as [|c a IH]; cbn [append isascii]; [reflexivity|].
  now rewrite IH, andb_assoc.
Qed.

Lemma isascii_drop (n : nat) : forall s, isascii s = true -> isascii (drop n s) = true.
Proof.
  induction n as [|n IH]; intros [|c s] H; cbn [drop]; try assumption.
  apply IH. cbn [isascii] in H. now apply andb_true_iff in H.
Qed.

(** On ASCII text the two digit classes take the same runs. *)
Lemma decimals_ascii (s : string) : isascii s = true -> decimals s = digits s.
Proof.
  unfold decimals. induction s as [|c s IH]; [reflexivity|].
  cbn [isascii]. rewrite andb_true_iff, N.ltb_lt. intros [Hc Hs].
  cbn [decimals_from digits]. rewrite (decimal_width_ascii c s Hc).
  destruct (isdigit c); [now rewrite (IH Hs) | reflexivity].
Qed.


(** What [match_version] recognises in ASCII text. *)
Lemma match_version_some (s ver rest : string) :
  isascii s = true ->
  match_version s = Some (ver, rest) ->
  exists d1 d2 d3, number d1 /\ number d2 /\ number d3 /\
                   ver = d1 ++ "." ++ d2 ++ "." ++ d3 /\ s = ver ++ rest.
Proof.
  intros A. unfold match_version. rewrite (decimals_ascii s A).
  pose proof (digits_spec s) as (S1 & A1 & _).
  destruct (digits s) as [d1 r1]. cbn [fst snd] in *.
  destruct d1 as [|c1 d1]; [discriminate|].
  destruct r1 as [|x1 r1]; [discriminate|].
  destruct (Ascii.eqb_spec x1 "."); [subst x1|].
  2:{ destruct x1 as [[] [] [] [] [] [] [] []]; try discriminate. congruence. }
  assert (B : isascii r1 = true).
  { rewrite S1, isascii_app in A. cbn [isascii] in A.
    rewrite !andb_true_iff in A. tauto. }
  rewrite (decimals_ascii r1 B).
  pose proof (digits_spec r1) as (S2 & A2 & _).
  destruct (digits r1) as [d2 r2]. cbn [fst snd] in *.
  destruct d2 as [|c2 d2]; [discriminate|].
  destruct r2 as [|x2 r2]; [discriminate|].
  destruct (Ascii.eqb_spec x2 "."); [subst x2|].
  2:{ destruct x2 as [[] [] [] [] [] [] [] []]; try discriminate. congruence. }
  assert (C : isascii r2 = true).
  { rewrite S2, isascii_app in B. cbn [isascii] in B.
    rewrite !andb_true_iff in B. tauto. }
  rewrite (decimals_ascii r2 C).
  pose proof (digits_spec r2) as (S3 & A3 & _).
  destruct (digits r2) as [d3 r3]. cbn [fst snd] in *.
  destruct d3 as [|c3 d3]; [discriminate|].
  intros H. inversion H; subst ver rest; clear H.
  exists (String c1 d1), (String c2 d2), (String c3 d3).
  repeat split; try discriminate; try assumption.
  rewrite S1 at 1. rewrite S2 at 1. rewrite S3 at 1.
  cbn [append]. f_equal. rewrite !append_assoc. cbn [append]. f_equal. f_equal.
  rewrite !append_assoc. reflexivity.
Qed.

(** In any text the version of a match is not the empty string. *)
Lemma match_version_nonempty (s ver rest : string) :
  match_version s = Some (ver, rest) -> exists c ver', ver = String c ver'.
Proof.
  unfold match_version.
  destruct (decimals s) as [d1 r1].
  destruct d1 as [|c1 d1]; [discriminate|].
  destruct r1 as [|x1 r1]; [discriminate|].
  destruct x1 as [[] [] [] [] [] [] [] []]; try discriminate.
  destruct (decimals r1) as [d2 r2].
  destruct d2 as [|c2 d2]; [discriminate|].
  destruct r2 as [|x2 r2]; [discriminate|].
  destruct x2 as [[] [] [] [] [] [] [] []]; try discriminate.
  destruct (decimals r2) as [d3 r3].
  destruct d3 as [|c3 d3]; [discriminate|].
  intros H. inversion H. cbn [append]. eauto.
Qed.

(** *** [str] and [int] *)

Lemma str_length_one (n : N) : n < 10 -> String.length (str n) = 1%nat.
Proof.
  intros H. rewrite <- (N2Nat.id n).
  assert (K : (N.to_nat n < 10)%nat) by lia.
  destruct (N.to_nat n) as [|k]; [reflexivity|].
  do 9 (destruct k as [|k]; [reflexivity|]). lia.
Qed.

Lemma str_length_two (n : N) : 10 <= n -> (2 <= String.length (str n))%nat.
Proof.
  intros H. unfold str.
  pose proof (DecimalN.Unsigned.of_to n) as E.
  destruct (N.to_uint n) as [|d|d|d|d|d|d|d|d|d|d];
    try (destruct d as [|d|d|d|d|d|d|d|d|d|d]);
    try (cbv in E; lia); simpl; lia.
Qed.

Lemma str_length_pos (n : N) : (1 <= String.length (str n))%nat.
Proof.
  destruct (N.lt_ge_cases n 10) as [H|H].
  - rewrite (str_length_one n H). lia.
  - pose proof (str_length_two n H). lia.
Qed.

Lemma int_from_pos (d : Decimal.uint) : forall p : positive,
  int_from (N.pos p) (NilEmpty.string_of_uint d) = N.pos (Pos.of_uint_acc d p).
Proof.
  induction d as [|d IH|d IH|d IH|d IH|d IH|d IH|d IH|d IH|d IH|d IH];
    intros p; cbn [NilEmpty.string_of_uint int_from Pos.of_uint_acc];
    [reflexivity
    | rewrite <- IH; f_equal;
      match goal with
      | |- context [N_of_ascii ?c - 48] =>
          let k := eval vm_compute in (N_of_ascii c - 48) in
          change (N_of_ascii c - 48) with k
      end; lia ..].
Qed.

Lemma int_of_uint (d : Decimal.uint) :
  int (NilEmpty.string_of_uint d) = N.of_uint d.
Proof.
  unfold int.
  induction d as [|d IH|d IH|d IH|d IH|d IH|d IH|d IH|d IH|d IH|d IH];
    cbn [NilEmpty.string_of_uint int_from];
    [reflexivity | exact IH | apply (int_from_pos d) ..].
Qed.

(** [int(str(n)) == n] *)
Lemma int_str (n : N) : int (str n) = n.
Proof.
  unfold str. rewrite <- (DecimalN.Unsigned.of_to n) at 2.
  destruct (N.to_uint n) eqn:E; rewrite <- int_of_uint; reflexivity.
Qed.

Lemma uint_all_digits (d : Decimal.uint) :
  all_digits (NilEmpty.string_of_uint d) = true.
Proof. induction d; simpl; auto. Qed.

Lemma str_number (n : N) : number (str n).
Proof.
  split.
  - pose proof (str_length_pos n) as H. destruct (str n); [simpl in H; lia | discriminate].
  - unfold str. destruct (N.to_uint n); try apply uint_all_digits. reflexivity.
Qed.

(** ** The matches of [comp_version_rex] *)

Lemma match_alternatives_some (alts : list string) (s o ver rest : string) :
  match_alternatives alts s = Some (o, ver, rest) ->
  In o alts /\ prefix o s = true /\
  match_version (drop (String.length o) s) = Some (ver, rest).
Proof.
  induction alts as [|a alts IH]; simpl; [discriminate|].
  destruct (prefix a s) eqn:P.
  - destruct (match_version (drop (String.length a) s)) as [[ver' rest']|] eqn:M.
    + intros H. inversion H; subst. auto.
    + intros H. destruct (IH H) as (? & ? & ?). auto.
  - intros H. destruct (IH H) as (? & ? & ?). auto.
Qed.

(** Every tuple of [findall] repeats its operator in the first two places
    and the operator is one of the alternatives; the version is not the
    empty string and, in ASCII text, is a dotted triple of numbers. *)
Lemma findall_from_shape (s : string) : forall (k : nat) (m : string * string * string),
  In m (findall_from k s) ->
  exists o c ver, m = (o, o, String c ver) /\ In o operator_alternatives.
Proof.
  induction s as [|c s IH]; intros k m; cbn [findall_from]; [intros []|].
  destruct k as [|k]; [|apply IH].
  destruct (comp_version_rex_match (String c s)) as [[[o ver] rest]|] eqn:M;
    [|apply IH].
  intros [<-|H]; [|eapply IH; exact H].
  apply match_alternatives_some in M. destruct M as (Ho & _ & Mv).
  apply match_version_nonempty in Mv. destruct Mv as (c' & ver' & ->).
  exists o, c', ver'. auto.
Qed.

Lemma findall_from_sound (s : string) : forall (k : nat) (m : string * string * string),
  isascii s = true ->
  In m (findall_from k s) ->
  exists o d1 d2 d3,
    m = (o, o, d1 ++ "." ++ d2 ++ "." ++ d3) /\ In o operator_alternatives /\
    number d1 /\ number d2 /\ number d3.
Proof.
  induction s as [|c s IH]; intros k m A; cbn [findall_from]; [intros []|].
  assert (A' : isascii s = true)
    by (cbn [isascii] in A; now apply andb_true_iff in A).
  destruct k as [|k]; [|now apply IH].
  destruct (comp_version_rex_match (String c s)) as [[[o ver] rest]|] eqn:M;
    [|now apply IH].
  intros [<-|H]; [|eapply IH; eassumption].
  apply match_alternatives_some in M. destruct M as (Ho & _ & Mv).
  apply match_version_some in Mv; [|now apply isascii_drop].
  destruct Mv as (d1 & d2 & d3 & H1 & H2 & H3 & -> & _).
  exists o, d1, d2, d3. auto.
Qed.

Lemma ops_alternative (o : string) :
  In o operator_alternatives -> exists f, ops o = Some f.
Proof.
  intros H. repeat (destruct H as [<-|H]; [eexists; reflexivity|]). destruct H.
Qed.

Lemma for_each_total {A B : Type} (f : A -> result B) (R : A -> B -> Prop)
  (xs : list A) :
  (forall x, In x xs -> exists y, f x = Ok y /\ R x y) ->
  exists ys, for_each f xs = Ok ys /\ Forall2 R xs ys.
Proof.
  induction xs as [|x xs IH]; intros H; simpl.
  - exists []. split; [reflexivity | constructor].
  - destruct (H x (or_introl Logic.eq_refl)) as (y & -> & Hy).
    destruct IH as (ys & -> & Hys); [intros; apply H; now right|].
    exists (y :: ys). split; [reflexivity | now constructor].
Qed.

Lemma for_each_In {A B : Type} (f : A -> result B) (xs : list A) :
  forall ys, for_each f xs = Ok ys ->
             Forall2 (fun x y => f x = Ok y) xs ys.
Proof.
  induction xs as [|x xs IH]; intros ys; cbn [for_each].
  - intros H. inversion H. constructor.
  - destruct (f x) as [y|e] eqn:E; [|discriminate]. cbn [bind].
    destruct (for_each f xs) as [ys'|e]; [|discriminate]. cbn [bind].
    intros H. inversion H. constructor; [exact E | now apply IH].
Qed.

Lemma for_each_raises {A B : Type} (f : A -> result B) (xs : list A) (e : exception) :
  for_each f xs = Raise e -> exists x, In x xs /\ f x = Raise e.
Proof.
  induction xs as [|x xs IH]; cbn [for_each]; [discriminate|].
  destruct (f x) as [y|e'] eqn:E; cbn [bind].
  - destruct (for_each f xs) as [ys'|e'']; cbn [bind]; [discriminate|].
    intros H. inversion H; subst. destruct (IH Logic.eq_refl) as (x' & Hx' & Hf).
    exists x'. split; [now right | exact Hf].
  - intros H. inversion H; subst. exists x. split; [now left | exact E].
Qed.

(** Building [conditions] from ASCII text never raises: the operator of a
    match is a key of [ops] and its version is a valid version string.  Each
    condition is the one its match stands for. *)
Lemma conditions_of_spec (l : string) :
  isascii l = true ->
  exists cs, conditions_of l = Ok cs /\
             Forall2 condition_reads (comp_version_rex_findall l) cs.
Proof.
  intros A. apply for_each_total. intros m Hm.
  apply findall_from_sound in Hm; [|exact A].
  destruct Hm as (o & d1 & d2 & d3 & -> & Ho & H1 & H2 & H3).
  destruct (ops_alternative o Ho) as [f Hf].
  unfold condition_of. rewrite Hf, SolidityVersion_new_dotted by assumption.
  eexists. split; [reflexivity|].
  exists o, d1, d2, d3. auto.
Qed.

Lemma conditions_of_total (l : string) :
  isascii l = true -> exists cs, conditions_of l = Ok cs.
Proof. intros A. destruct (conditions_of_spec l A) as (cs & H & _). eauto. Qed.

(** In any text, building [conditions] raises nothing but the ValueError of
    [StrictVersion.parse]. *)
Lemma conditions_of_raises (l : string) (e : exception) :
  conditions_of l = Raise e -> exists msg, e = ValueError msg.
Proof.
  intros H. apply for_each_raises in H. destruct H as (m & Hm & H).
  apply findall_from_shape in Hm. destruct Hm as (o & c & ver & -> & Ho).
  destruct (ops_alternative o Ho) as [f Hf].
  unfold condition_of in H. rewrite Hf in H.
  unfold SolidityVersion_new, SolidityVersion_init in H.
  destruct (StrictVersion_parse (String c ver)) as [x|e'] eqn:E;
    cbn [bind attributes] in H; [discriminate|].
  inversion H; subst e'. exact (StrictVersion_parse_raises _ _ E).
Qed.

(** ** parse_version *)

Lemma last_In (xs : list SolidityVersion) : forall x, In (last xs x) (x :: xs).
Proof.
  induction xs as [|y xs IH]; intros x; [now left|].
  destruct xs as [|z xs]; [right; now left|].
  change (last (y :: z :: xs) x) with (last (z :: xs) x).
  destruct (IH x) as [H|H]; [now left | right; now right].
Qed.

Lemma parse_version_no_pragma (cat : list SolidityVersion) (lines : list string) :
  first_eligible lines = None -> parse_version cat lines = last_item cat.
Proof.
  unfold first_eligible. induction lines as [|l lines IH]; simpl; [reflexivity|].
  destruct (eligible l); [discriminate | exact IH].
Qed.

Lemma parse_version_pragma (cat : list SolidityVersion) (lines : list string)
  (l : string) (cs : list OperatorVersionTuple) :
  first_eligible lines = Some l -> conditions_of l = Ok cs ->
  parse_version cat lines =
  match filter (fullfills_all_conditions cs) cat with
  | [] => Raise conflicting
  | x :: xs => Ok (min_from x xs)
  end.
Proof.
  unfold first_eligible. induction lines as [|l' lines IH]; simpl; [discriminate|].
  destruct (eligible l') eqn:E.
  - intros H Hc. inversion H; subst l'. rewrite Hc. simpl.
    destruct (filter (fullfills_all_conditions cs) cat); reflexivity.
  - exact IH.
Qed.

Lemma parse_version_pragma_raise (cat : list SolidityVersion) (lines : list string)
  (l : string) (e : exception) :
  first_eligible lines = Some l -> conditions_of l = Raise e ->
  parse_version cat lines = Raise e.
Proof.
  unfold first_eligible. induction lines as [|l' lines IH]; simpl; [discriminate|].
  destruct (eligible l') eqn:E.
  - intros H Hc. inversion H; subst l'. rewrite Hc. reflexivity.
  - exact IH.
Qed.

(** With a populated catalog a file gets a version of the catalog, or is
    refused with the conflict, or, when its first eligible line is not ASCII
    text, ends in the ValueError of a version that does not parse. *)
Lemma parse_version_outcome (cat : list SolidityVersion) (lines : list string) :
  cat <> [] ->
  (exists m, parse_version cat lines = Ok m /\ In m cat) \/
  parse_version cat lines = Raise conflicting \/
  (exists l msg, first_eligible lines = Some l /\ isascii l = false /\
                 parse_version cat lines = Raise (ValueError msg)).
Proof.
  intros Hcat. destruct (first_eligible lines) as [l|] eqn:F.
  - destruct (conditions_of l) as [cs|e] eqn:Hcs.
    + rewrite (parse_version_pragma cat lines l cs F Hcs).
      destruct (filter (fullfills_all_conditions cs) cat) as [|x xs] eqn:Ef;
        [right; now left|].
      left. exists (min_from x xs). split; [reflexivity|].
      destruct (min_from_spec xs x) as [Hin _].
      rewrite <- Ef in Hin. apply filter_In in Hin. tauto.
    + right. right. destruct (conditions_of_raises l e Hcs) as [msg ->].
      exists l, msg. split; [reflexivity|].
      split; [|exact (parse_version_pragma_raise cat lines l _ F Hcs)].
      destruct (isascii l) eqn:A; [|reflexivity].
      destruct (conditions_of_total l A) as [cs' Hcs']. congruence.
  - rewrite (parse_version_no_pragma cat lines F).
    destruct cat as [|x xs]; [congruence|]. left. exists (last xs x).
    split; [reflexivity | apply last_In].
Qed.

Lemma parse_version_outcome_ascii (cat : list SolidityVersion) (lines : list string) :
  cat <> [] -> ascii_pragma lines ->
  (exists m, parse_version cat lines = Ok m /\ In m cat) \/
  parse_version cat lines = Raise conflicting.
Proof.
  intros Hcat A.
  destruct (parse_version_outcome cat lines Hcat) as [H|[H|(l & msg & F & N & _)]];
    auto.
  rewrite (A l F) in N. discriminate.
Qed.

(** ** Lines that declare constraints *)




























(** ** The preferred version of a file *)



(** C8.  When the first line with 'pragma' and without 'experimental' has no
    match of the operator-version pattern, the list of conditions is empty,
    every version passes the filter and, the catalog being non-empty,
    [parse_version] returns the minimum of the whole catalog.  A file with
    no pragma line gets the last version of the catalog instead: with the
    catalog 0.4.11, 0.6.1 the line "pragma solidity ^0.5;" gives 0.4.11 and a
    file without pragma gives 0.6.1. *)
Theorem parse_version_pragma_without_match :
  (forall (SOLC_VERSIONS : list SolidityVersion) (lines : list string) (l : string),
      first_eligible lines = Some l ->
      comp_version_rex_findall l = [] ->
      SOLC_VERSIONS <> [] ->
      conditions_of l = Ok [] /\
      exists m,
        parse_version SOLC_VERSIONS lines = Ok m /\
        In m SOLC_VERSIONS /\
        forall w, In w SOLC_VERSIONS -> operator.le m w = true) /\
  comp_version_rex_findall "pragma solidity ^0.5;" = [] /\
  parse_version [release 0 4 11; release 0 6 1] ["pragma solidity ^0.5;"] =
    Ok (release 0 4 11) /\
  parse_version [release 0 4 11; release 0 6 1] ["contract C {}"] =
    Ok (release 0 6 1).
Proof.
  split; [|repeat split; reflexivity].
  intros cat lines l F Hm Hcat.
  assert (Hc : conditions_of l = Ok []) by (unfold conditions_of; now rewrite Hm).
  split; [exact Hc|].
  rewrite (parse_version_pragma cat lines l [] F Hc).
  assert (Ef : filter (fullfills_all_conditions []) cat = cat).
  { clear. induction cat as [|x xs IH]; simpl; [reflexivity | now rewrite IH]. }
  rewrite Ef. destruct cat as [|x xs]; [congruence|].
  exists (min_from x xs). split; [reflexivity|]. apply min_from_spec.
Qed.

Lemma parse_version_pragma_without_match_witness :
  first_eligible ["pragma experimental ABIEncoderV2;"; "pragma solidity 0.5;"] =
    Some "pragma solidity 0.5;" /\
  comp_version_rex_findall "pragma solidity 0.5;" = [] /\
  conditions_of "pragma solidity 0.5;" = Ok [] /\
  exists m,
    parse_version [release 0 6 1; release 0 4 11; release 0 5 0]
      ["pragma experimental ABIEncoderV2;"; "pragma solidity 0.5;"] = Ok m /\
    In m [release 0 6 1; release 0 4 11; release 0 5 0] /\
    forall w, In w [release 0 6 1; release 0 4 11; release 0 5 0] ->
              operator.le m w = true.
Proof.
  split; [reflexivity|]. split; [reflexivity|].
  apply (proj1 parse_version_pragma_without_match
           [release 0 6 1; release 0 4 11; release 0 5 0]
           ["pragma experimental ABIEncoderV2;"; "pragma solidity 0.5;"]
           "pragma solidity 0.5;").
  - reflexivity.
  - reflexivity.
  - discriminate.
Defined.

(** ** The string of a version *)

(** C7.  The version string "0.5" parses to the version (0, 5, 0), whose
    string is "0.5.0": parsing "0.5" and converting back yields "0.5.0". *)
Theorem str_of_parsed_0_5 :
  SolidityVersion_new "0.5" = Ok (release 0 5 0) /\
  (x <- SolidityVersion_new "0.5" ;; Ok (SolidityVersion_str x)) = Ok "0.5.0".
Proof. split; reflexivity. Qed.


(** "a.b" has more than three characters exactly when one of the two
    numbers has two digits or more. *)
Lemma dotted_pair_long (a b : N) :
  (3 < String.length (str a ++ "." ++ str b))%nat <-> 10 <= a \/ 10 <= b.
Proof.
  rewrite length_append. simpl.
  pose proof (str_length_pos a). pose proof (str_length_pos b).
  destruct (N.lt_ge_cases a 10) as [Ha|Ha], (N.lt_ge_cases b 10) as [Hb|Hb];
    try (pose proof (str_length_one a Ha));
    try (pose proof (str_length_one b Hb));
    try (pose proof (str_length_two a Ha));
    try (pose proof (str_length_two b Hb));
    split; intros K; try lia; auto.
Qed.

(** C9.  For a version a.b.0, [__str__] appends ".0" to the rendering "a.b"
    exactly when "a.b" has at most 3 characters; when "a.b" is longer than 3
    characters, which is when a or b has two digits or more, the result is
    just "a.b", the patch component left out: 0.10.0 is rendered "0.10" and
    1.12.0 is rendered "1.12", while 0.5.0 is rendered "0.5.0".  (A
    prerelease a.b.0 is rendered "a.b" followed by its letter and number,
    never with three components.) *)
Theorem str_drops_zero_patch_of_long_versions :
  (forall a b : N,
      ((3 < String.length (str a ++ "." ++ str b))%nat ->
       SolidityVersion_str (release a b 0) = str a ++ "." ++ str b) /\
      ((String.length (str a ++ "." ++ str b) <= 3)%nat ->
       SolidityVersion_str (release a b 0) = str a ++ "." ++ str b ++ ".0") /\
      (10 <= a \/ 10 <= b ->
       SolidityVersion_str (release a b 0) = str a ++ "." ++ str b)) /\
  (forall (a b : N) (letter : ascii) (num : N),
      SolidityVersion_str (mkVersion (a, b, 0) (Some (letter, num))) =
      (str a ++ "." ++ str b) ++ String letter "" ++ str num) /\
  SolidityVersion_str (release 0 10 0) = "0.10" /\
  SolidityVersion_str (release 1 12 0) = "1.12" /\
  SolidityVersion_str (release 0 5 0) = "0.5.0".
Proof.
  split; [|split; [|repeat split; reflexivity]].
  2:{ intros a b letter num. unfold SolidityVersion_str, StrictVersion_str.
      cbn [version prerelease N.eqb].
      pose proof (str_length_pos a). pose proof (str_length_pos b).
      destruct (Nat.leb_spec
                  (String.length ((str a ++ "." ++ str b) ++
                                  String letter "" ++ str num)) 3) as [L|L];
        [|reflexivity].
      rewrite !length_append in L. cbn [String.length] in L. lia. }
  intros a b.
  assert (E : StrictVersion_str (release a b 0) = str a ++ "." ++ str b)
    by reflexivity.
  assert (L : (3 < String.length (str a ++ "." ++ str b))%nat ->
              SolidityVersion_str (release a b 0) = str a ++ "." ++ str b).
  { intros H. unfold SolidityVersion_str. rewrite E.
    destruct (Nat.leb_spec (String.length (str a ++ "." ++ str b)) 3);
      [lia | reflexivity]. }
  split; [exact L|]. split.
  - intros H. unfold SolidityVersion_str. rewrite E.
    destruct (Nat.leb_spec (String.length (str a ++ "." ++ str b)) 3); [|lia].
    rewrite !append_assoc. reflexivity.
  - intros H. apply L. now apply dotted_pair_long.
Qed.

Lemma str_drops_zero_patch_of_long_versions_witness :
  SolidityVersion_str (release 0 10 0) = str 0 ++ "." ++ str 10 /\
  SolidityVersion_str (release 0 5 0) = str 0 ++ "." ++ str 5 ++ ".0" /\
  SolidityVersion_str (release 1 12 0) = str 1 ++ "." ++ str 12.
Proof.
  split; [|split].
  - apply (proj1 (proj1 str_drops_zero_patch_of_long_versions 0 10)).
    vm_compute. lia.
  - apply (proj1 (proj2 (proj1 str_drops_zero_patch_of_long_versions 0 5))).
    vm_compute. lia.
  - apply (proj2 (proj2 (proj1 str_drops_zero_patch_of_long_versions 1 12))).
    right. lia.
Defined.

(** ** Splitting at the equals sign *)

Lemma str_split_no_sep (c : ascii) (s : string) :
  no_char c s = true -> str_split c s = [s].
Proof.
  induction s as [|a s IH]; simpl; [reflexivity|].
  intros H. apply andb_true_iff in H. destruct H as [Ha Hs].
  apply negb_true_iff in Ha. rewrite Ha, (IH Hs). reflexivity.
Qed.

Lemma str_split_at_sep (c : ascii) (name rest : string) :
  no_char c name = true ->
  str_split c (name ++ String c rest) = name :: str_split c rest.
Proof.
  induction name as [|a name IH]; simpl.
  - intros _. now rewrite Ascii.eqb_refl.
  - intros H. apply andb_true_iff in H. destruct H as [Ha Hs].
    apply negb_true_iff in Ha. rewrite Ha, (IH Hs). reflexivity.
Qed.

(** C10.  For an explicit remapping [name=path] whose path is absolute,
    [complete_remapping] returns the entry as it was given: the join discards
    the project root.  A relative path is what gets the project root in
    front, with a slash between the two unless the root is empty or ends
    with one. *)
Theorem complete_remapping_keeps_absolute_path :
  (forall proj_dir name old_path : string,
      no_char "=" name = true ->
      no_char "=" old_path = true ->
      (startswith old_path "/" = true ->
       complete_remapping proj_dir (name ++ "=" ++ old_path) =
       Ok (name ++ "=" ++ old_path)) /\
      (startswith old_path "/" = false ->
       complete_remapping proj_dir (name ++ "=" ++ old_path) =
       Ok (name ++ "=" ++ proj_dir ++
           (if String.eqb proj_dir "" || endswith_char proj_dir "/"
            then "" else "/") ++ old_path))) /\
  complete_remapping "/proj" "foo=/opt/lib/foo" = Ok "foo=/opt/lib/foo" /\
  complete_remapping "/proj" "foo=lib/foo" = Ok "foo=/proj/lib/foo".
Proof.
  split; [|split; reflexivity].
  intros proj_dir name old_path Hn Hp.
  assert (E : str_split "=" (name ++ "=" ++ old_path) = [name; old_path]).
  { cbn [append]. rewrite (str_split_at_sep "=" name old_path Hn).
    now rewrite (str_split_no_sep "=" old_path Hp). }
  unfold complete_remapping, os_path_join. rewrite E.
  split; intros H; rewrite H; [reflexivity|].
  destruct (String.eqb proj_dir "" || endswith_char proj_dir "/"); reflexivity.
Qed.

Lemma complete_remapping_keeps_absolute_path_witness :
  complete_remapping "/home/me/project" ("zeppelin" ++ "=" ++ "/usr/lib/zeppelin") =
    Ok ("zeppelin" ++ "=" ++ "/usr/lib/zeppelin") /\
  complete_remapping "/home/me/project" ("zeppelin" ++ "=" ++ "lib/zeppelin") =
    Ok "zeppelin=/home/me/project/lib/zeppelin".
Proof.
  split.
  - apply (proj1 (proj1 complete_remapping_keeps_absolute_path
                    "/home/me/project" "zeppelin" "/usr/lib/zeppelin"
                    Logic.eq_refl Logic.eq_refl)).
    reflexivity.
  - apply (proj2 (proj1 complete_remapping_keeps_absolute_path
                    "/home/me/project" "zeppelin" "lib/zeppelin"
                    Logic.eq_refl Logic.eq_refl)).
    reflexivity.
Defined.

(** ** The catalog *)

Lemma minimal_version : SolidityVersion_new MINIMAL_SOLC_VERSION = Ok (release 0 4 11).
Proof. reflexivity. Qed.

Lemma SolidityVersion_new_init (vstring : string) (x : SolidityVersion) :
  SolidityVersion_new vstring = Ok x -> SolidityVersion_init vstring = Ok (Some x).
Proof.
  unfold SolidityVersion_new.
  destruct (SolidityVersion_init vstring) as [[y|]|e]; simpl; congruence.
Qed.

Lemma keep_supported_filter (versions : list SolidityVersion) :
  keep_supported (map Some versions) =
  Ok (filter (fun x => operator.ge x (release 0 4 11)) versions).
Proof.
  induction versions as [|x versions IH]; [reflexivity|].
  cbn [keep_supported filter map]. rewrite minimal_version, IH. cbn [bind attributes].
  destruct (operator.ge x (release 0 4 11)); reflexivity.
Qed.

(** The offline branch, when every installed identifier names a version. *)
Lemma set_supported_offline (env : Environment)
  (SOLC_VERSIONS versions : list SolidityVersion) :
  releases_json env = None ->
  Forall2 (fun id x => SolidityVersion_new (tail id) = Ok x)
          (get_installed_solc_versions env) versions ->
  set_supported_solc_versions env SOLC_VERSIONS =
  (Ok tt, filter (fun x => operator.ge x (release 0 4 11)) versions).
Proof.
  intros Hr Hv. unfold set_supported_solc_versions. rewrite Hr.
  assert (E : for_each (fun s => SolidityVersion_init (tail s))
                       (get_installed_solc_versions env) = Ok (map Some versions)).
  { induction Hv as [|id x ids xs Hx _ IH]; simpl; [reflexivity|].
    rewrite (SolidityVersion_new_init _ _ Hx), IH. reflexivity. }
  rewrite E. cbn [bind]. rewrite keep_supported_filter. reflexivity.
Qed.

Lemma insert_sorted_In (x y : SolidityVersion) (xs : list SolidityVersion) :
  In y (insert_sorted x xs) <-> y = x \/ In y xs.
Proof.
  induction xs as [|z xs IH]; simpl.
  - intuition.
  - destruct (operator.lt x z); simpl; [intuition|]. rewrite IH. intuition.
Qed.

Lemma insert_sorted_ascending (x : SolidityVersion) (xs : list SolidityVersion) :
  ascending xs -> ascending (insert_sorted x xs).
Proof.
  unfold ascending. induction 1 as [|z xs Hs IH Hz]; simpl.
  - constructor; constructor.
  - destruct (operator.lt x z) eqn:E.
    + constructor; [now constructor|].
      apply lt_true_le in E. constructor; [exact E|].
      rewrite Forall_forall in *. intros w Hw.
      eapply le_trans; [exact E | now apply Hz].
    + constructor; [exact IH|].
      rewrite Forall_forall in *. intros w Hw.
      apply insert_sorted_In in Hw. destruct Hw as [->|Hw].
      * now apply lt_false_le.
      * now apply Hz.
Qed.

Lemma sorted_from (xs : list SolidityVersion) : forall acc,
  ascending acc ->
  ascending (fold_left (fun acc x => insert_sorted x acc) xs acc) /\
  forall y, In y (fold_left (fun acc x => insert_sorted x acc) xs acc) <->
            In y acc \/ In y xs.
Proof.
  induction xs as [|x xs IH]; intros acc Ha; simpl.
  - split; [exact Ha | intuition].
  - destruct (IH (insert_sorted x acc) (insert_sorted_ascending x acc Ha)) as [H1 H2].
    split; [exact H1|]. intros y. rewrite H2, insert_sorted_In. intuition.
Qed.

(** [sorted] returns the same items in ascending order. *)
Lemma sorted_spec (xs : list SolidityVersion) :
  ascending (sorted xs) /\ forall y, In y (sorted xs) <-> In y xs.
Proof.
  destruct (sorted_from xs [] (SSorted_nil _)) as [H1 H2].
  split; [exact H1|]. intros y. unfold sorted. rewrite H2. simpl. intuition.
Qed.

Lemma last_cons (xs : list SolidityVersion) : forall z x,
  last (z :: xs) x = last xs z.
Proof.
  induction xs as [|a xs IH]; intros z x; [reflexivity|].
  change (last (z :: a :: xs) x) with (last (a :: xs) x).
  now rewrite !IH.
Qed.

(** The last item of an ascending list is its maximum. *)
Lemma ascending_last (xs : list SolidityVersion) : forall x,
  ascending (x :: xs) ->
  forall y, In y (x :: xs) -> operator.le y (last xs x) = true.
Proof.
  induction xs as [|z xs IH]; intros x Ha y Hy.
  - destruct Hy as [<-|[]]. apply le_refl.
  - inversion Ha as [|? ? Hs Hx]; subst.
    rewrite last_cons. destruct Hy as [<-|Hy].
    + eapply le_trans; [|apply (IH z Hs z); now left].
      rewrite Forall_forall in Hx. apply Hx. now left.
    + now apply IH.
Qed.

(** The online branch leaves a catalog in ascending order: with it, a file
    without pragma line gets the maximum of the catalog. *)
Lemma no_pragma_online_maximum (env : Environment) (releases : list Release)
  (G G' : list SolidityVersion) (lines : list string) :
  releases_json env = Some releases ->
  set_supported_solc_versions env G = (Ok tt, G') ->
  G' <> [] ->
  first_eligible lines = None ->
  exists m, parse_version G' lines = Ok m /\ In m G' /\
            forall w, In w G' -> operator.le w m = true.
Proof.
  intros Hr Hs Hne F. unfold set_supported_solc_versions in Hs.
  rewrite Hr in Hs.
  destruct (scan_releases releases []) as [versions|e];
    inversion Hs; subst G'.
  rewrite (parse_version_no_pragma _ lines F).
  destruct (sorted_spec versions) as [Ha _].
  destruct (sorted versions) as [|x xs]; [congruence|].
  exists (last xs x). split; [reflexivity|]. split; [apply last_In|].
  now apply ascending_last.
Qed.

(** ** The version of the project *)

Lemma populated_length (G : list SolidityVersion) :
  G <> [] -> (List.length G =? 0)%nat = false.
Proof. destruct G; [congruence | reflexivity]. Qed.

Lemma map_parse_version_Forall2 (G : list SolidityVersion)
  (files : list (list string)) (versions : list SolidityVersion) :
  Forall2 (fun lines x => parse_version G lines = Ok x) files versions ->
  map (parse_version G) files = map Ok versions.
Proof.
  induction 1 as [|f x files versions Hf _ IH]; simpl; [reflexivity|].
  now rewrite Hf, IH.
Qed.

(** The first exception of the iteration is the exception of one of the
    files. *)
Lemma first_exception_of_a_file {Source : Type}
  (parse : Source -> result SolidityVersion)
  (files : list Source) (xs : list SolidityVersion) (e : exception)
  (post : list (result SolidityVersion)) :
  map parse files = (map Ok xs ++ Raise e :: post)%list ->
  exists f, In f files /\ parse f = Raise e.
Proof.
  intros E.
  assert (Hin : In (Raise e) (map parse files))
    by (rewrite E; apply in_or_app; right; now left).
  apply in_map_iff in Hin. destruct Hin as (f & Hf & Hin). eauto.
Qed.

(** C2.  For a non-empty list of files and a populated catalog, when every
    file gets a preferred version, the version chosen for the project is the
    maximum of the files' preferred versions: one of them, and above all of
    them.  In particular, with the catalog 0.4.11, 0.4.24, 0.4.25, 0.5.0,
    0.6.0, a file with [>=0.4.24 <0.6.0] prefers 0.4.24, a file with
    [^0.5.0] prefers 0.5.0, and the project gets 0.5.0. *)
Theorem project_version_is_maximum_of_file_versions :
  (forall (env : Environment) (files : list (list string))
          (G G' versions : list SolidityVersion),
      set_supported_solc_versions env G = (Ok tt, G') ->
      G' <> [] ->
      files <> [] ->
      Forall2 (fun lines x => parse_version G' lines = Ok x) files versions ->
      exists m,
        compile_solfiles_solc_version env files G = (Ok m, G') /\
        In m versions /\
        forall x, In x versions -> operator.le x m = true) /\
  parse_version
    [release 0 4 11; release 0 4 24; release 0 4 25; release 0 5 0; release 0 6 0]
    ["pragma solidity >=0.4.24 <0.6.0;"] = Ok (release 0 4 24) /\
  parse_version
    [release 0 4 11; release 0 4 24; release 0 4 25; release 0 5 0; release 0 6 0]
    ["pragma solidity ^0.5.0;"] = Ok (release 0 5 0) /\
  compile_solfiles_solc_version
    (mkEnvironment None ["v0.4.11"; "v0.4.24"; "v0.4.25"; "v0.5.0"; "v0.6.0"])
    [["pragma solidity >=0.4.24 <0.6.0;"]; ["pragma solidity ^0.5.0;"]] [] =
  (Ok (release 0 5 0),
   [release 0 4 11; release 0 4 24; release 0 4 25; release 0 5 0; release 0 6 0]).
Proof.
  split; [|repeat split; reflexivity].
  intros env files G G' versions Hs HG Hf Hv.
  unfold compile_solfiles_solc_version, choose_solc_version.
  rewrite Hs, (populated_length G' HG), (map_parse_version_Forall2 G' files versions Hv).
  assert (Hne : versions <> []).
  { intros ->. inversion Hv. congruence. }
  destruct (py_max_spec versions Hne) as (m & Hm & Hin & Hle).
  exists m. rewrite Hm. auto.
Qed.

Lemma project_version_is_maximum_of_file_versions_witness :
  exists m,
    compile_solfiles_solc_version
      (mkEnvironment None ["v0.6.0"; "v0.4.24"; "v0.5.0"])
      [["pragma solidity ^0.5.0;"]; ["pragma solidity 0.4.24;"]; ["contract C {}"]]
      [release 0 7 0] =
    (Ok m, [release 0 6 0; release 0 4 24; release 0 5 0]) /\
    In m [release 0 5 0; release 0 4 24; release 0 5 0] /\
    forall x, In x [release 0 5 0; release 0 4 24; release 0 5 0] ->
              operator.le x m = true.
Proof.
  apply (proj1 project_version_is_maximum_of_file_versions
           (mkEnvironment None ["v0.6.0"; "v0.4.24"; "v0.5.0"])
           [["pragma solidity ^0.5.0;"]; ["pragma solidity 0.4.24;"]; ["contract C {}"]]
           [release 0 7 0]
           [release 0 6 0; release 0 4 24; release 0 5 0]
           [release 0 5 0; release 0 4 24; release 0 5 0]).
  - reflexivity.
  - discriminate.
  - discriminate.
  - repeat constructor.
Defined.

(** C4, as amended.  A file whose first eligible line declares conditions
    that no version of the catalog satisfies makes [parse_version] raise
    CompilerVersionNotSupported("Conflicting Compiler Requirements").  With a
    populated catalog the choice of the project's version then raises,
    wherever the file stands in the list and whatever the other files are:
    no maximum is returned.  What it raises is that conflict, raised at that
    file, provided no file before it fails for another reason; whatever
    files follow play no part.  For example a catalog that tops out at 0.8.0
    and a file that requires [>=1.0.0]. *)
Theorem conflicting_requirements_raise :
  (forall (SOLC_VERSIONS : list SolidityVersion) (lines : list string)
          (l : string) (conditions : list OperatorVersionTuple),
      first_eligible lines = Some l ->
      conditions_of l = Ok conditions ->
      (forall w, In w SOLC_VERSIONS -> fullfills_all_conditions conditions w = false) ->
      parse_version SOLC_VERSIONS lines = Raise conflicting) /\
  (forall (env : Environment) (G G' : list SolidityVersion)
          (before after : list (list string)) (lines : list string)
          (l : string) (conditions : list OperatorVersionTuple),
      set_supported_solc_versions env G = (Ok tt, G') ->
      G' <> [] ->
      first_eligible lines = Some l ->
      conditions_of l = Ok conditions ->
      (forall w, In w G' -> fullfills_all_conditions conditions w = false) ->
      (exists e,
          compile_solfiles_solc_version env (before ++ lines :: after)%list G =
          (Raise e, G')) /\
      (Forall (fun f => forall e, parse_version G' f = Raise e -> e = conflicting)
              before ->
       compile_solfiles_solc_version env (before ++ lines :: after)%list G =
       (Raise conflicting, G'))) /\
  compile_solfiles_solc_version
    (mkEnvironment None ["v0.4.24"; "v0.8.0"])
    [["pragma solidity ^0.4.24;"]; ["pragma solidity >=1.0.0;"]; ["contract C {}"]]
    [] =
  (Raise (CompilerVersionNotSupported "Conflicting Compiler Requirements"),
   [release 0 4 24; release 0 8 0]).
Proof.
  assert (P : forall (SOLC_VERSIONS : list SolidityVersion) (lines : list string)
                     (l : string) (conditions : list OperatorVersionTuple),
             first_eligible lines = Some l ->
             conditions_of l = Ok conditions ->
             (forall w, In w SOLC_VERSIONS ->
                        fullfills_all_conditions conditions w = false) ->
             parse_version SOLC_VERSIONS lines = Raise conflicting).
  { intros cat lines l cs F Hc Hno.
    rewrite (parse_version_pragma cat lines l cs F Hc).
    destruct (filter (fullfills_all_conditions cs) cat) as [|x xs] eqn:Ef;
      [reflexivity|].
    assert (Hin : In x (filter (fullfills_all_conditions cs) cat))
      by (rewrite Ef; now left).
    apply filter_In in Hin. destruct Hin as [Hin Hsat].
    rewrite (Hno x Hin) in Hsat. discriminate. }
  split; [exact P|]. split; [|reflexivity].
  intros env G G' before after lines l cs Hs HG F Hc Hno.
  unfold compile_solfiles_solc_version, choose_solc_version.
  rewrite Hs, (populated_length G' HG), map_app. cbn [map].
  rewrite (P G' lines l cs F Hc Hno).
  destruct (results_split (map (parse_version G') before))
    as [(xs & E)|(xs & e & post & E)].
  - rewrite E, py_max_raise. split; [eauto | reflexivity].
  - destruct (first_exception_of_a_file _ before xs e post E) as (f & Hin & Hf).
    rewrite E, <- app_assoc. cbn [app]. rewrite py_max_raise.
    split; [eauto|]. intros Hb. rewrite Forall_forall in Hb.
    now rewrite (Hb f Hin e Hf).
Qed.

Lemma conflicting_requirements_raise_witness :
  parse_version [release 0 4 24; release 0 8 0] ["pragma solidity >=1.0.0;"] =
    Raise conflicting /\
  compile_solfiles_solc_version
    (mkEnvironment None ["v0.4.24"; "v0.8.0"])
    ([["pragma solidity ^0.4.24;"]; ["pragma solidity ^0.9.0;"]] ++
     ["// SPDX"; "pragma solidity >=1.0.0;"] :: [["contract C {}"]])%list
    [release 0 5 0] =
  (Raise conflicting, [release 0 4 24; release 0 8 0]).
Proof.
  split.
  - apply (proj1 conflicting_requirements_raise
             [release 0 4 24; release 0 8 0] ["pragma solidity >=1.0.0;"]
             "pragma solidity >=1.0.0;"
             [mkOperatorVersionTuple operator.ge (release 1 0 0)]).
    + reflexivity.
    + reflexivity.
    + intros w [<-|[<-|[]]]; reflexivity.
  - apply (proj1 (proj2 conflicting_requirements_raise)
             (mkEnvironment None ["v0.4.24"; "v0.8.0"]) [release 0 5 0]
             [release 0 4 24; release 0 8 0]
             [["pragma solidity ^0.4.24;"]; ["pragma solidity ^0.9.0;"]]
             [["contract C {}"]]
             ["// SPDX"; "pragma solidity >=1.0.0;"]
             "pragma solidity >=1.0.0;"
             [mkOperatorVersionTuple operator.ge (release 1 0 0)]).
    + reflexivity.
    + discriminate.
    + reflexivity.
    + reflexivity.
    + intros w [<-|[<-|[]]]; reflexivity.
    + constructor; [intros e H; vm_compute in H; discriminate H|].
      constructor; [intros e H; vm_compute in H; now inversion H|].
      constructor.
Defined.

(** C4, the claim as first stated fails.  The second file below declares
    [>=1.0.0], which no version of the catalog 0.4.24, 0.8.0 satisfies, yet
    the resolution does not raise the conflict: the first file, whose pragma
    writes its version in Arabic-Indic digits, is matched by
    [comp_version_rex] and refused by the constructor with a ValueError,
    which is what the resolution raises. *)
Lemma conflict_not_raised_behind_a_failing_file :
  conditions_of "pragma solidity >=1.0.0;" =
    Ok [mkOperatorVersionTuple operator.ge (release 1 0 0)] /\
  filter (fullfills_all_conditions
            [mkOperatorVersionTuple operator.ge (release 1 0 0)])
         [release 0 4 24; release 0 8 0] = [] /\
  compile_solfiles_solc_version
    (mkEnvironment None ["v0.4.24"; "v0.8.0"])
    [["pragma solidity ^" ++ arabic_indic 0 ++ "." ++ arabic_indic 4 ++ "."
        ++ arabic_indic 2 ++ arabic_indic 4 ++ ";"];
     ["pragma solidity >=1.0.0;"]]
    [] =
  (Raise (ValueError ("invalid version number '" ++ arabic_indic 0 ++ "."
                        ++ arabic_indic 4 ++ "." ++ arabic_indic 2
                        ++ arabic_indic 4 ++ "'")),
   [release 0 4 24; release 0 8 0]).
Proof. repeat split; reflexivity. Qed.

(** C5.  Offline, with the installed compilers listed as v0.5.10, v0.5.2 (the
    order of their names), the catalog is 0.5.10, 0.5.2 and a file without
    version declaration gets 0.5.2, the last version of the catalog, although
    0.5.10 is in the catalog and is greater. *)
Theorem no_pragma_offline_gets_last_not_maximum :
  compile_solfiles_solc_version
    (mkEnvironment None ["v0.5.10"; "v0.5.2"]) [["contract C {}"]] [] =
  (Ok (release 0 5 2), [release 0 5 10; release 0 5 2]) /\
  parse_version [release 0 5 10; release 0 5 2] ["contract C {}"] =
  Ok (release 0 5 2) /\
  operator.lt (release 0 5 2) (release 0 5 10) = true.
Proof. repeat split; reflexivity. Qed.

(** C6, as amended.  When the fetch of the release listing fails with a
    network error and every installed identifier names a version (its text
    after the first character is a version string), the refresh returns
    normally and the catalog after it is the list of the installed versions
    that are at or above 0.4.11, whatever the catalog was before.
    Identifiers of the form vMAJOR.MINOR.PATCH all name versions, so with
    them the refresh never raises. *)
Theorem refresh_offline_replaces_catalog :
  (forall (env : Environment) (SOLC_VERSIONS versions : list SolidityVersion),
      releases_json env = None ->
      Forall2 (fun id x => SolidityVersion_new (tail id) = Ok x)
              (get_installed_solc_versions env) versions ->
      set_supported_solc_versions env SOLC_VERSIONS =
      (Ok tt, filter (fun x => operator.ge x (release 0 4 11)) versions)) /\
  (forall (env : Environment) (SOLC_VERSIONS : list SolidityVersion)
          (ids : list (string * string * string)),
      releases_json env = None ->
      get_installed_solc_versions env = map installed_identifier ids ->
      Forall (fun d => number (fst (fst d)) /\ number (snd (fst d)) /\ number (snd d)) ids ->
      set_supported_solc_versions env SOLC_VERSIONS =
      (Ok tt,
       filter (fun x => operator.ge x (release 0 4 11))
         (map (fun d => mkVersion (int (fst (fst d)), int (snd (fst d)), int (snd d)) None)
              ids))).
Proof.
  split; [exact set_supported_offline|].
  intros env G ids Hr Hi Hn. apply set_supported_offline; [exact Hr|].
  rewrite Hi. clear Hi. induction Hn as [|[[d1 d2] d3] ids (H1 & H2 & H3) _ IH]; simpl.
  - constructor.
  - constructor; [|exact IH].
    now apply SolidityVersion_new_dotted.
Qed.

Lemma refresh_offline_replaces_catalog_witness :
  set_supported_solc_versions
    (mkEnvironment None ["v0.4.10"; "v0.4.25"; "v0.5"]) [release 0 6 0] =
    (Ok tt, [release 0 4 25; release 0 5 0]) /\
  set_supported_solc_versions
    (mkEnvironment None ["v0.5.10"; "v0.04.9"]) [release 0 6 0] =
    (Ok tt, [release 0 5 10]).
Proof.
  split.
  - apply (proj1 refresh_offline_replaces_catalog
             (mkEnvironment None ["v0.4.10"; "v0.4.25"; "v0.5"]) [release 0 6 0]
             [release 0 4 10; release 0 4 25; release 0 5 0]).
    + reflexivity.
    + repeat constructor.
  - apply (proj2 refresh_offline_replaces_catalog
             (mkEnvironment None ["v0.5.10"; "v0.04.9"]) [release 0 6 0]
             [("0", "5", "10"); ("0", "04", "9")]).
    + reflexivity.
    + reflexivity.
    + repeat constructor; discriminate.
Defined.

(** C6, the claim as first stated fails.  The fetch fails, and among the
    installed compilers solcx lists one whose identifier is not a version
    string: the refresh raises the ValueError of the constructor, and the
    catalog is the one from before the call, not the installed versions. *)
Lemma refresh_offline_raises_over_an_identifier :
  set_supported_solc_versions
    (mkEnvironment None ["v0.5.2"; "v0.5.2-nightly"]) [release 0 6 0] =
  (Raise (ValueError "invalid version number '0.5.2-nightly'"), [release 0 6 0]).
Proof. reflexivity. Qed.

(** * Further properties *)


(** ** Version strings *)

Lemma digits_all (d : string) : all_digits d = true -> digits d = (d, "").
Proof.
  intros H. rewrite <- (append_nil_r d) at 1. now apply digits_app.
Qed.

Lemma letter_no_digit (c : ascii) (r : string) :
  c = "a"%char \/ c = "b"%char -> no_digit_ahead (String c r).
Proof. intros [->| ->]; reflexivity. Qed.

(** What [parse] makes of a well-formed version string. *)
Lemma StrictVersion_parse_text (d1 d2 : string) (d3 : option string)
  (pre : option (ascii * string)) :
  number d1 -> number d2 ->
  match d3 with Some d => number d | None => True end ->
  match pre with
  | Some (c, d) => (c = "a"%char \/ c = "b"%char) /\ number d
  | None => True
  end ->
  StrictVersion_parse (version_text d1 d2 d3 pre) =
  Ok (mkVersion
        (int d1, int d2, match d3 with Some d => int d | None => 0 end)
        match pre with Some (c, d) => Some (c, int d) | None => None end).
Proof.
  intros [N1 H1] [N2 H2] H3 Hp.
  unfold StrictVersion_parse, version_text.
  destruct d3 as [d3|], pre as [[c dn]|]; cbn [append];
    rewrite (digits_app d1 _ H1 (dot_no_digit _));
    (destruct d1 as [|c1 d1]; [congruence|]).
  - destruct H3 as [N3 H3], Hp as [Hc [Nn Hn]].
    rewrite (digits_app d2 _ H2 (dot_no_digit _)).
    destruct d2 as [|c2 d2]; [congruence|].
    rewrite (digits_app d3 _ H3 (letter_no_digit c dn Hc)).
    destruct d3 as [|c3 d3]; [congruence|].
    destruct Hc as [->| ->]; cbn [Ascii.eqb Bool.eqb orb andb];
      rewrite (digits_all dn Hn);
      (destruct dn as [|cn dn]; [congruence | reflexivity]).
  - destruct H3 as [N3 H3].
    rewrite (digits_app d2 _ H2 (dot_no_digit _)).
    destruct d2 as [|c2 d2]; [congruence|].
    rewrite (digits_app d3 "" H3 I).
    destruct d3 as [|c3 d3]; [congruence | reflexivity].
  - destruct Hp as [Hc [Nn Hn]].
    rewrite (digits_app d2 _ H2 (letter_no_digit c dn Hc)).
    destruct d2 as [|c2 d2]; [congruence|].
    destruct Hc as [->| ->]; cbn [Ascii.eqb Bool.eqb orb andb];
      rewrite (digits_all dn Hn);
      (destruct dn as [|cn dn]; [congruence | reflexivity]).
  - rewrite (digits_app d2 "" H2 I).
    destruct d2 as [|c2 d2]; [congruence | reflexivity].
Qed.

Lemma SolidityVersion_new_parse (s : string) :
  s <> "" -> SolidityVersion_new s = StrictVersion_parse s.
Proof.
  destruct s as [|c s]; [congruence|]. intros _.
  unfold SolidityVersion_new, SolidityVersion_init.
  destruct (StrictVersion_parse (String c s)); reflexivity.
Qed.

Lemma version_text_nonempty (d1 d2 : string) (d3 : option string)
  (pre : option (ascii * string)) :
  d1 <> "" -> version_text d1 d2 d3 pre <> "".
Proof. destruct d1; [congruence | discriminate]. Qed.

Ltac same_text :=
  unfold version_text;
  repeat rewrite append_assoc; cbn [append];
  repeat rewrite append_nil_r; reflexivity.

(** The string of a version, as a version text. *)
Lemma SolidityVersion_str_text (a b c : N) (pre : option (ascii * N)) :
  exists d3 : option string,
    SolidityVersion_str (mkVersion (a, b, c) pre) =
    version_text (str a) (str b) d3
      match pre with Some (l, n) => Some (l, str n) | None => None end /\
    match d3 with Some d => number d /\ int d = c | None => c = 0 end.
Proof.
  unfold SolidityVersion_str, StrictVersion_str. cbn [version prerelease].
  pose proof (str_length_pos a) as La. pose proof (str_length_pos b) as Lb.
  pose proof (str_length_pos c) as Lc.
  destruct (N.eqb_spec c 0) as [->|Hc], pre as [[l n]|].
  - exists None. split; [|reflexivity].
    destruct (Nat.leb_spec
                (String.length ((str a ++ "." ++ str b) ++ String l "" ++ str n)) 3)
      as [L|L]; [|same_text].
    rewrite !length_append in L. cbn [String.length] in L. lia.
  - destruct (Nat.leb_spec (String.length (str a ++ "." ++ str b)) 3) as [L|L].
    + exists (Some "0"). split; [same_text|]. split; [|reflexivity].
      split; [discriminate | reflexivity].
    + exists None. split; [same_text | reflexivity].
  - exists (Some (str c)). split; [|split; [apply str_number | apply int_str]].
    destruct (Nat.leb_spec
                (String.length ((str a ++ "." ++ str b ++ "." ++ str c) ++
                                String l "" ++ str n)) 3)
      as [L|L]; [|same_text].
    rewrite !length_append in L. cbn [String.length] in L. lia.
  - exists (Some (str c)). split; [|split; [apply str_number | apply int_str]].
    destruct (Nat.leb_spec
                (String.length (str a ++ "." ++ str b ++ "." ++ str c)) 3)
      as [L|L]; [|same_text].
    rewrite !length_append in L. cbn [String.length] in L. lia.
Qed.

(** [str] followed by the constructor. *)
Lemma version_str_reads_back :
  (forall x : SolidityVersion,
      prerelease_letter x ->
      SolidityVersion_new (SolidityVersion_str x) = Ok x) /\
  (forall (vstring : string) (x : SolidityVersion),
      SolidityVersion_new vstring = Ok x ->
      SolidityVersion_new (SolidityVersion_str x) = Ok x).
Proof.
  assert (R : forall x : SolidityVersion,
             prerelease_letter x ->
             SolidityVersion_new (SolidityVersion_str x) = Ok x).
  { intros [[[a b] c] pre] Hl. unfold prerelease_letter in Hl. cbn in Hl.
    destruct (SolidityVersion_str_text a b c pre) as (d3 & E & H3).
    rewrite E.
    rewrite SolidityVersion_new_parse
      by (apply version_text_nonempty; apply str_number).
    rewrite StrictVersion_parse_text.
    - rewrite !int_str. f_equal. f_equal.
      + destruct d3 as [d|]; [destruct H3 as [_ ->] | rewrite H3]; reflexivity.
      + destruct pre as [[l n]|]; [rewrite int_str|]; reflexivity.
    - apply str_number.
    - apply str_number.
    - destruct d3 as [d|]; [tauto | exact I].
    - destruct pre as [[l n]|]; [|exact I]. split; [exact Hl | apply str_number]. }
  split; [exact R|].
  intros vstring x H. apply R.
  unfold SolidityVersion_new, SolidityVersion_init in H.
  destruct vstring as [|c0 s0]; [discriminate|].
  unfold StrictVersion_parse in H.
  destruct (digits (String c0 s0)) as [mj r1].
  destruct mj as [|? ?]; [discriminate|].
  destruct r1 as [|c1 r1]; [discriminate|].
  destruct (Ascii.eqb_spec c1 "."); [subst c1|].
  2:{ destruct c1 as [[] [] [] [] [] [] [] []]; try discriminate H; congruence. }
  destruct (digits r1) as [mn r2]. destruct mn as [|? ?]; [discriminate|].
  destruct (match r2 with
            | String "."%char r2' =>
                let (p, r) := digits r2' in
                match p with
                | EmptyString => (None, r2)
                | String _ _ => (Some p, r)
                end
            | _ => (None, r2)
            end) as [pt r3].
  destruct r3 as [|c3 r3].
  - cbn in H. inversion H. exact I.
  - destruct (Ascii.eqb c3 "a" || Ascii.eqb c3 "b") eqn:Ec.
    + destruct (digits r3) as [n r]. destruct n as [|? ?].
      * destruct (at_dollar (String c3 r3)); cbn in H; inversion H. exact I.
      * destruct (at_dollar r); cbn in H; inversion H.
        unfold prerelease_letter. cbn.
        apply orb_true_iff in Ec. rewrite !Ascii.eqb_eq in Ec. exact Ec.
    + destruct (at_dollar (String c3 r3)); cbn in H; inversion H. exact I.
Qed.

(** X1.  The string of a version reads back as that version: for every
    version whose prerelease letter, if it has one, is "a" or "b",
    [SolidityVersion(str(x))] is [x].  Every version the constructor builds
    is such a version, so [str] followed by the constructor is the identity
    on the versions the script handles. *)
Theorem str_reads_back :
  (forall x : SolidityVersion,
      prerelease_letter x ->
      SolidityVersion_new (SolidityVersion_str x) = Ok x) /\
  (forall (vstring : string) (x : SolidityVersion),
      SolidityVersion_new vstring = Ok x ->
      SolidityVersion_new (SolidityVersion_str x) = Ok x).
Proof. exact version_str_reads_back. Qed.

Lemma str_reads_back_witness :
  SolidityVersion_new (SolidityVersion_str (mkVersion (0, 10, 0) (Some ("b"%char, 2)))) =
    Ok (mkVersion (0, 10, 0) (Some ("b"%char, 2))) /\
  SolidityVersion_new (SolidityVersion_str (release 0 5 0)) = Ok (release 0 5 0).
Proof.
  split.
  - apply (proj1 str_reads_back). right. reflexivity.
  - apply (proj2 str_reads_back "0.5"). reflexivity.
Defined.

(** ** The comparisons of [ops] *)

(** X2.  The five comparisons of the table [ops] are those of one total
    order on versions: of [a < b], [a == b] and [a > b] exactly one holds,
    [a == b] holds only for [a] and [b] the same version, [a > b] is
    [b < a], [<=] is [<] or [==], [>=] is the negation of [<], and [<] is
    transitive. *)
Theorem ops_total_order :
  ops "<" = Some operator.lt /\ ops "" = Some operator.eq /\
  ops ">" = Some operator.gt /\ ops "<=" = Some operator.le /\
  ops ">=" = Some operator.ge /\
  forall a b : SolidityVersion,
    (operator.lt a b = true /\ operator.eq a b = false /\ operator.gt a b = false \/
     operator.lt a b = false /\ operator.eq a b = true /\ operator.gt a b = false \/
     operator.lt a b = false /\ operator.eq a b = false /\ operator.gt a b = true) /\
    (operator.eq a b = true <-> a = b) /\
    operator.gt a b = operator.lt b a /\
    operator.le a b = operator.lt a b || operator.eq a b /\
    operator.ge a b = negb (operator.lt a b) /\
    forall c : SolidityVersion,
      operator.lt a b = true -> operator.lt b c = true -> operator.lt a c = true.
Proof.
  repeat (split; [reflexivity|]).
  intros a b. split; [|split; [apply eq_iff|split; [|split; [|split]]]].
  - unfold operator.lt, operator.eq, operator.gt.
    destruct (cmp_spec a b) as [[E _]|[[E _]|[E _]]]; rewrite E; cbn; tauto.
  - destruct (operator.lt b a) eqn:L.
    + apply gt_iff. now apply lt_iff.
    + destruct (operator.gt a b) eqn:G; [|reflexivity].
      apply gt_iff in G. apply lt_iff in G. congruence.
  - unfold operator.le, operator.lt, operator.eq.
    destruct (cmp_spec a b) as [[E _]|[[E _]|[E _]]]; rewrite E; reflexivity.
  - unfold operator.ge, operator.lt.
    destruct (cmp_spec a b) as [[E _]|[[E _]|[E _]]]; rewrite E; reflexivity.
  - intros c. rewrite !lt_iff. apply key_lt_trans.
Qed.

(** ** The caret *)

Lemma tuple2_ge_iff (a0 a1 b0 b1 : N) :
  tuple2_ge (a0, a1) (b0, b1) = true <-> b0 < a0 \/ b0 = a0 /\ b1 <= a1.
Proof.
  unfold tuple2_ge.
  destruct (N.eqb_spec a0 b0), (N.eqb_spec a1 b1); cbn;
    rewrite ?N.leb_le; intuition lia.
Qed.

(** X3.  The caret relation is reflexive and transitive, and between two
    versions without prerelease [candidate ^ requirement] says exactly that
    the candidate has the major component of the requirement and is [>=]
    it. *)
Theorem caret_is_ge_within_major :
  (forall a : SolidityVersion, operator.xor a a = true) /\
  (forall a b c : SolidityVersion,
      operator.xor a b = true -> operator.xor b c = true ->
      operator.xor a c = true) /\
  (forall candidate requirement : SolidityVersion,
      prerelease candidate = None -> prerelease requirement = None ->
      (operator.xor candidate requirement = true <->
       major candidate = major requirement /\
       operator.ge candidate requirement = true)).
Proof.
  split; [|split].
  - intros [[[a0 a1] a2] pa]. unfold operator.xor, SolidityVersion_xor. cbn [version].
    rewrite N.eqb_refl. apply tuple2_ge_iff. lia.
  - intros [[[a0 a1] a2] pa] [[[b0 b1] b2] pb] [[[c0 c1] c2] pc].
    unfold operator.xor, SolidityVersion_xor. cbn [version].
    rewrite !andb_true_iff, !N.eqb_eq, !tuple2_ge_iff. intuition lia.
  - intros [[[a0 a1] a2] pa] [[[b0 b1] b2] pb]. cbn [prerelease]. intros -> ->.
    rewrite ge_iff. unfold operator.xor, SolidityVersion_xor, major, key_lt.
    cbn [version prerelease pre_key fst snd].
    rewrite andb_true_iff, N.eqb_eq, tuple2_ge_iff.
    split.
    + intros [-> H]. split; [reflexivity|].
      destruct (N.eq_dec a1 b1) as [->|], (N.eq_dec a2 b2) as [->|];
        [right; reflexivity | left; lia ..].
    + intros [-> [H|H]]; [split; [reflexivity | lia]|].
      inversion H; subst. split; [reflexivity | lia].
Qed.

Lemma caret_is_ge_within_major_witness :
  operator.xor (release 0 5 3) (release 0 4 11) = true /\
  (operator.xor (release 0 5 3) (release 0 5 0) = true <->
   major (release 0 5 3) = major (release 0 5 0) /\
   operator.ge (release 0 5 3) (release 0 5 0) = true).
Proof.
  split.
  - apply (proj1 (proj2 caret_is_ge_within_major)
             (release 0 5 3) (release 0 5 0) (release 0 4 11)); reflexivity.
  - apply (proj2 (proj2 caret_is_ge_within_major)); reflexivity.
Defined.

(** ** More on [parse_version] *)

(** X4.  Only the first eligible line of a file counts: the lines before it
    that are not eligible (among them every line with 'experimental') and
    all the lines after it, eligible or not, do not change what
    [parse_version] does. *)
Theorem parse_version_first_eligible_line_only :
  forall (SOLC_VERSIONS : list SolidityVersion)
         (before after : list string) (l : string),
    Forall (fun x => str_in "pragma" x = false \/ str_in "experimental" x = true)
           before ->
    eligible l = true ->
    parse_version SOLC_VERSIONS (before ++ l :: after)%list =
    parse_version SOLC_VERSIONS [l].
Proof.
  intros cat before after l Hb Hl.
  induction Hb as [|x before Hx _ IH]; cbn [app parse_version].
  - rewrite Hl. reflexivity.
  - assert (E : eligible x = false).
    { unfold eligible. destruct Hx as [-> | ->]; [reflexivity|].
      now rewrite andb_false_r. }
    rewrite E. exact IH.
Qed.

Lemma parse_version_first_eligible_line_only_witness :
  parse_version [release 0 4 24; release 0 5 0]
    (["// SPDX"; "pragma experimental ABIEncoderV2; pragma solidity ^0.5.0;"] ++
     "pragma solidity 0.4.24;" :: ["pragma solidity ^0.5.0;"])%list =
  parse_version [release 0 4 24; release 0 5 0] ["pragma solidity 0.4.24;"].
Proof.
  apply parse_version_first_eligible_line_only.
  - constructor; [left; reflexivity|].
    constructor; [right; reflexivity|]. constructor.
  - reflexivity.
Defined.

(** X5.  For a file with an eligible line, what [parse_version] does depends
    only on which versions the catalog holds, not on their order or on
    repetitions. *)
Theorem parse_version_pragma_ignores_catalog_order :
  forall (cat cat' : list SolidityVersion) (lines : list string) (l : string),
    first_eligible lines = Some l ->
    (forall x, In x cat <-> In x cat') ->
    parse_version cat lines = parse_version cat' lines.
Proof.
  intros cat cat' lines l F Hsame.
  destruct (conditions_of l) as [cs|e] eqn:Hcs.
  2:{ now rewrite (parse_version_pragma_raise cat lines l e F Hcs),
                  (parse_version_pragma_raise cat' lines l e F Hcs). }
  rewrite (parse_version_pragma cat lines l cs F Hcs),
          (parse_version_pragma cat' lines l cs F Hcs).
  assert (Hf : forall x, In x (filter (fullfills_all_conditions cs) cat) <->
                         In x (filter (fullfills_all_conditions cs) cat')).
  { intros x. rewrite !filter_In, Hsame. reflexivity. }
  destruct (filter (fullfills_all_conditions cs) cat) as [|x xs],
           (filter (fullfills_all_conditions cs) cat') as [|y ys].
  - reflexivity.
  - destruct (proj2 (Hf y) (or_introl Logic.eq_refl)).
  - destruct (proj1 (Hf x) (or_introl Logic.eq_refl)).
  - f_equal.
    destruct (min_from_spec xs x) as [I1 L1], (min_from_spec ys y) as [I2 L2].
    apply le_antisym.
    + apply L1. apply Hf. exact I2.
    + apply L2. apply Hf. exact I1.
Qed.

Lemma parse_version_pragma_ignores_catalog_order_witness :
  parse_version [release 0 5 10; release 0 5 2] ["pragma solidity ^0.5.0;"] =
  parse_version [release 0 5 2; release 0 5 10; release 0 5 2]
                ["pragma solidity ^0.5.0;"].
Proof.
  apply (parse_version_pragma_ignores_catalog_order
           [release 0 5 10; release 0 5 2]
           [release 0 5 2; release 0 5 10; release 0 5 2]
           ["pragma solidity ^0.5.0;"] "pragma solidity ^0.5.0;").
  - reflexivity.
  - intros x. cbn. tauto.
Defined.

(** X6.  With a populated catalog [parse_version] ends in one of three ways:
    it returns a version of the catalog, it raises the conflict, or it
    raises the ValueError of a version that does not parse, which needs a
    first eligible line that is not ASCII text (a version matched with a
    decimal digit of another script).  On a file whose first eligible line
    is ASCII text, or that has none, only the first two remain.  With an
    empty catalog it always raises: IndexError for a file without eligible
    line, the conflict for one whose first eligible line is ASCII text. *)
Theorem parse_version_outcomes :
  (forall (SOLC_VERSIONS : list SolidityVersion) (lines : list string),
      SOLC_VERSIONS <> [] ->
      (exists m, parse_version SOLC_VERSIONS lines = Ok m /\ In m SOLC_VERSIONS) \/
      parse_version SOLC_VERSIONS lines = Raise conflicting \/
      (exists l msg,
          first_eligible lines = Some l /\ isascii l = false /\
          parse_version SOLC_VERSIONS lines = Raise (ValueError msg))) /\
  (forall (SOLC_VERSIONS : list SolidityVersion) (lines : list string),
      SOLC_VERSIONS <> [] ->
      ascii_pragma lines ->
      (exists m, parse_version SOLC_VERSIONS lines = Ok m /\ In m SOLC_VERSIONS) \/
      parse_version SOLC_VERSIONS lines = Raise conflicting) /\
  (forall lines : list string,
      ascii_pragma lines ->
      parse_version [] lines =
      match first_eligible lines with
      | Some _ => Raise conflicting
      | None => Raise (IndexError "list index out of range")
      end) /\
  parse_version [release 0 4 24]
    ["pragma solidity ^0.4.2" ++ arabic_indic 4 ++ ";"] =
  Raise (ValueError ("invalid version number '0.4.2" ++ arabic_indic 4 ++ "'")).
Proof.
  split; [exact parse_version_outcome|].
  split; [exact parse_version_outcome_ascii|].
  split; [|reflexivity].
  intros lines A. destruct (first_eligible lines) as [l|] eqn:F.
  - destruct (conditions_of_total l (A l F)) as [cs Hcs].
    rewrite (parse_version_pragma [] lines l cs F Hcs). reflexivity.
  - rewrite (parse_version_no_pragma [] lines F). reflexivity.
Qed.

Lemma parse_version_outcomes_witness :
  ((exists m, parse_version [release 0 4 24]
                ["// x"; "pragma solidity <0.4.0 >=0.4.0;"] = Ok m /\
              In m [release 0 4 24]) \/
   parse_version [release 0 4 24] ["// x"; "pragma solidity <0.4.0 >=0.4.0;"] =
   Raise conflicting) /\
  parse_version [] ["pragma solidity ^0.4.24;"] = Raise conflicting.
Proof.
  split.
  - apply (proj1 (proj2 parse_version_outcomes)); [discriminate|].
    intros l F. vm_compute in F. inversion F. reflexivity.
  - apply (proj1 (proj2 (proj2 parse_version_outcomes)) ["pragma solidity ^0.4.24;"]).
    intros l F. vm_compute in F. inversion F. reflexivity.
Defined.

(** X7.  Building the conditions of a line raises nothing but the ValueError
    of [StrictVersion.parse].  On a line of ASCII text it never raises:
    there is one condition per match of [comp_version_rex], its function is
    the one [ops] holds for the operator of the match, one of the six of the
    table, and its version is the release of the three numbers of the match,
    without prerelease.  A match with a decimal digit outside ASCII is a
    ValueError. *)
Theorem conditions_are_releases :
  (forall (l : string) (e : exception),
      conditions_of l = Raise e -> exists msg, e = ValueError msg) /\
  (forall l : string,
      isascii l = true ->
      exists conditions,
        conditions_of l = Ok conditions /\
        Forall2 condition_reads (comp_version_rex_findall l) conditions /\
        Forall (fun c => prerelease (v c) = None /\
                         exists o, In o operator_alternatives /\ ops o = Some (op c))
               conditions) /\
  conditions_of ("pragma solidity >=0.4." ++ arabic_indic 9 ++ ";") =
  Raise (ValueError ("invalid version number '0.4." ++ arabic_indic 9 ++ "'")).
Proof.
  split; [exact conditions_of_raises|]. split; [|reflexivity].
  intros l A. destruct (conditions_of_spec l A) as (cs & Hcs & Hr).
  assert (Hs : forall m, In m (comp_version_rex_findall l) ->
                         In (fst (fst m)) operator_alternatives).
  { intros m Hm. apply findall_from_shape in Hm.
    destruct Hm as (o & c & ver & -> & Ho). exact Ho. }
  exists cs. split; [exact Hcs|]. split; [exact Hr|].
  clear Hcs. revert Hs Hr. generalize (comp_version_rex_findall l) as ms.
  intros ms Hs Hr. induction Hr as [|m c ms cs' Hmc _ IH]; constructor.
  - destruct Hmc as (o & d1 & d2 & d3 & Em & Eo & Ev).
    split; [rewrite Ev; reflexivity|].
    exists o. split; [|exact Eo].
    specialize (Hs m (or_introl Logic.eq_refl)). rewrite Em in Hs. exact Hs.
  - apply IH. intros m' Hm'. apply Hs. now right.
Qed.

Lemma conditions_are_releases_witness :
  (exists msg,
      ValueError ("invalid version number '" ++ arabic_indic 1 ++ ".2.3'") =
      ValueError msg) /\
  exists conditions,
    conditions_of "pragma solidity >=0.4.24 <0.6.0;" = Ok conditions /\
    Forall2 condition_reads
            (comp_version_rex_findall "pragma solidity >=0.4.24 <0.6.0;")
            conditions /\
    Forall (fun c => prerelease (v c) = None /\
                     exists o, In o operator_alternatives /\ ops o = Some (op c))
           conditions.
Proof.
  split.
  - apply (proj1 conditions_are_releases
             ("pragma solidity ^" ++ arabic_indic 1 ++ ".2.3;")).
    reflexivity.
  - apply (proj1 (proj2 conditions_are_releases)). reflexivity.
Defined.

(** ** The catalog built from the release listing *)

Lemma scan_releases_spec (releases : list Release) :
  forall acc versions : list SolidityVersion,
    scan_releases releases acc = Ok versions ->
    exists kept,
      versions = (acc ++ kept)%list /\
      forall x, In x kept <-> exists r, In r releases /\ supported_release r x.
Proof.
  induction releases as [|r releases IH]; intros acc versions; cbn [scan_releases].
  - intros H. inversion H; subst. exists []. split; [now rewrite app_nil_r|].
    intros x. split; [intros [] | intros (r & [] & _)].
  - destruct (SolidityVersion_new (tail (tag_name r))) as [x0|e] eqn:E0;
      [|discriminate].
    cbn [bind]. rewrite minimal_version. cbn [bind].
    destruct (operator.lt x0 (release 0 4 11)) eqn:L;
      [|destruct (has_static_binary r) eqn:B; cbn [negb]].
    + intros H. destruct (IH _ _ H) as (kept & -> & Hk).
      exists kept. split; [reflexivity|]. intros x. rewrite Hk.
      split; intros (r' & Hr' & Hs).
      * exists r'. split; [now right | exact Hs].
      * destruct Hr' as [<-|Hr']; [|now exists r'].
        destruct Hs as (E & L' & _). congruence.
    + intros H. destruct (IH _ _ H) as (kept & -> & Hk).
      exists (x0 :: kept). split; [now rewrite <- app_assoc|].
      intros x. cbn [In]. rewrite Hk.
      split.
      * intros [<-|(r' & Hr' & Hs)].
        -- exists r. split; [now left | repeat split; assumption].
        -- exists r'. split; [now right | exact Hs].
      * intros (r' & [<-|Hr'] & Hs).
        -- left. destruct Hs as (E & _). congruence.
        -- right. now exists r'.
    + intros H. destruct (IH _ _ H) as (kept & -> & Hk).
      exists kept. split; [reflexivity|]. intros x. rewrite Hk.
      split; intros (r' & Hr' & Hs).
      * exists r'. split; [now right | exact Hs].
      * destruct Hr' as [<-|Hr']; [|now exists r'].
        destruct Hs as (_ & _ & B'). congruence.
Qed.

Lemma scan_releases_total (releases : list Release) :
  Forall (fun r => exists x, SolidityVersion_new (tail (tag_name r)) = Ok x) releases ->
  forall acc, exists versions, scan_releases releases acc = Ok versions.
Proof.
  induction 1 as [|r releases [x Hx] _ IH]; intros acc; cbn [scan_releases].
  - now exists acc.
  - rewrite Hx. cbn [bind]. rewrite minimal_version. cbn [bind].
    destruct (operator.lt x (release 0 4 11)); [apply IH|].
    destruct (negb (has_static_binary r)); apply IH.
Qed.

(** X8.  When the release listing is fetched and the refresh returns, the
    catalog is in ascending order and holds exactly the versions of the
    releases whose tag names a version not below 0.4.11 and which have the
    asset solc-static-linux; what was installed and what the catalog held
    before play no part.  The refresh returns whenever every tag names a
    version. *)
Theorem online_catalog :
  (forall (env : Environment) (releases : list Release)
          (G G' : list SolidityVersion),
      releases_json env = Some releases ->
      set_supported_solc_versions env G = (Ok tt, G') ->
      ascending G' /\
      forall x, In x G' <-> exists r, In r releases /\ supported_release r x) /\
  (forall (env : Environment) (releases : list Release) (G : list SolidityVersion),
      releases_json env = Some releases ->
      Forall (fun r => exists x, SolidityVersion_new (tail (tag_name r)) = Ok x)
             releases ->
      exists G', set_supported_solc_versions env G = (Ok tt, G')).
Proof.
  split.
  - intros env releases G G' Hr Hs. unfold set_supported_solc_versions in Hs.
    rewrite Hr in Hs.
    destruct (scan_releases releases []) as [versions|e] eqn:E;
      inversion Hs; subst G'.
    destruct (sorted_spec versions) as [Ha Hin]. split; [exact Ha|].
    destruct (scan_releases_spec releases [] versions E) as (kept & -> & Hk).
    intros x. rewrite Hin. exact (Hk x).
  - intros env releases G Hr Ht. unfold set_supported_solc_versions. rewrite Hr.
    destruct (scan_releases_total releases Ht []) as [versions ->]. eauto.
Qed.

Lemma online_catalog_witness :
  (ascending [release 0 4 24; release 0 5 10] /\
   forall x, In x [release 0 4 24; release 0 5 10] <->
             exists r, In r [mkRelease "v0.5.10" ["solc-static-linux"];
                             mkRelease "v0.4.10" ["solc-static-linux"];
                             mkRelease "v0.5.2" ["soljson.js"];
                             mkRelease "v0.4.24" ["soljson.js"; "solc-static-linux"]] /\
                       supported_release r x) /\
  exists G',
    set_supported_solc_versions
      (mkEnvironment (Some [mkRelease "v0.5.10" ["solc-static-linux"]]) [])
      [release 0 4 11] = (Ok tt, G').
Proof.
  split.
  - apply (proj1 online_catalog
             (mkEnvironment
                (Some [mkRelease "v0.5.10" ["solc-static-linux"];
                       mkRelease "v0.4.10" ["solc-static-linux"];
                       mkRelease "v0.5.2" ["soljson.js"];
                       mkRelease "v0.4.24" ["soljson.js"; "solc-static-linux"]])
                ["v0.6.0"])
             _ [release 0 6 0]); reflexivity.
  - apply (proj2 online_catalog
             (mkEnvironment (Some [mkRelease "v0.5.10" ["solc-static-linux"]]) [])
             [mkRelease "v0.5.10" ["solc-static-linux"]]).
    + reflexivity.
    + repeat constructor. eexists. reflexivity.
Defined.

(** X9.  After a refresh from the release listing, a file without version
    declaration gets the maximum of the catalog. *)
Theorem no_pragma_online_gets_maximum :
  forall (env : Environment) (releases : list Release)
         (G G' : list SolidityVersion) (lines : list string),
    releases_json env = Some releases ->
    set_supported_solc_versions env G = (Ok tt, G') ->
    G' <> [] ->
    first_eligible lines = None ->
    exists m, parse_version G' lines = Ok m /\ In m G' /\
              forall w, In w G' -> operator.le w m = true.
Proof. exact no_pragma_online_maximum. Qed.

Lemma no_pragma_online_gets_maximum_witness :
  exists m,
    parse_version [release 0 5 2; release 0 5 10] ["contract C {}"] = Ok m /\
    In m [release 0 5 2; release 0 5 10] /\
    forall w, In w [release 0 5 2; release 0 5 10] -> operator.le w m = true.
Proof.
  apply (no_pragma_online_gets_maximum
           (mkEnvironment
              (Some [mkRelease "v0.5.10" ["solc-static-linux"];
                     mkRelease "v0.5.2" ["solc-static-linux"]]) [])
           [mkRelease "v0.5.10" ["solc-static-linux"];
            mkRelease "v0.5.2" ["solc-static-linux"]]
           [] [release 0 5 2; release 0 5 10] ["contract C {}"]).
  - reflexivity.
  - reflexivity.
  - discriminate.
  - reflexivity.
Defined.

(** ** More on the version of the project *)

(** What the choice of the project's version can end with. *)
Lemma project_version_cases :
  (forall (env : Environment) (files : list (list string))
          (G G' : list SolidityVersion),
      set_supported_solc_versions env G = (Ok tt, G') ->
      G' <> [] ->
      files <> [] ->
      (exists m, compile_solfiles_solc_version env files G = (Ok m, G') /\ In m G') \/
      compile_solfiles_solc_version env files G = (Raise conflicting, G') \/
      (exists f l msg,
          In f files /\ first_eligible f = Some l /\ isascii l = false /\
          compile_solfiles_solc_version env files G = (Raise (ValueError msg), G'))) /\
  (forall (env : Environment) (files : list (list string))
          (G G' : list SolidityVersion),
      set_supported_solc_versions env G = (Ok tt, G') ->
      G' <> [] ->
      files <> [] ->
      Forall ascii_pragma files ->
      (exists m, compile_solfiles_solc_version env files G = (Ok m, G') /\ In m G') \/
      compile_solfiles_solc_version env files G = (Raise conflicting, G')) /\
  (forall (env : Environment) (files : list (list string))
          (G : list SolidityVersion),
      set_supported_solc_versions env G = (Ok tt, []) ->
      compile_solfiles_solc_version env files G =
      (Raise (CompilerVersionNotSupported
                "No compiler available. No connection to GitHub?"), [])).
Proof.
  assert (P : forall (env : Environment) (files : list (list string))
                     (G G' : list SolidityVersion),
             set_supported_solc_versions env G = (Ok tt, G') ->
             G' <> [] ->
             files <> [] ->
             (exists m, compile_solfiles_solc_version env files G = (Ok m, G') /\
                        In m G') \/
             compile_solfiles_solc_version env files G = (Raise conflicting, G') \/
             (exists f l msg,
                 In f files /\ first_eligible f = Some l /\ isascii l = false /\
                 compile_solfiles_solc_version env files G =
                 (Raise (ValueError msg), G'))).
  { intros env files G G' Hs HG Hf.
    unfold compile_solfiles_solc_version, choose_solc_version.
    rewrite Hs, (populated_length G' HG).
    destruct (results_split (map (parse_version G') files))
      as [(xs & E)|(xs & e & post & E)].
    - left. rewrite E.
      assert (Hne : xs <> []).
      { intros ->. destruct files; [congruence | discriminate]. }
      destruct (py_max_spec xs Hne) as (m & Hm & Hin & _).
      exists m. rewrite Hm. split; [reflexivity|].
      assert (Hok : In (Ok m) (map (parse_version G') files))
        by (rewrite E; now apply in_map).
      apply in_map_iff in Hok. destruct Hok as (f & Hf' & _).
      destruct (parse_version_outcome G' f HG)
        as [(m' & Hm' & Hin')|[Hc|(l & msg & _ & _ & Hc)]]; congruence.
    - right. rewrite E, py_max_raise.
      destruct (first_exception_of_a_file _ files xs e post E) as (f & Hin & He).
      destruct (parse_version_outcome G' f HG)
        as [(m' & Hm' & _)|[Hc|(l & msg & F & A & Hc)]]; [congruence| |].
      + left. congruence.
      + right. exists f, l, msg. repeat split; try assumption. congruence. }
  split; [exact P|]. split.
  - intros env files G G' Hs HG Hf HA.
    destruct (P env files G G' Hs HG Hf) as [H|[H|(f & l & msg & Hin & F & A & _)]];
      auto.
    rewrite Forall_forall in HA. rewrite (HA f Hin l F) in A. discriminate.
  - intros env files G Hs.
    unfold compile_solfiles_solc_version, choose_solc_version.
    rewrite Hs. reflexivity.
Qed.

(** X10.  With a populated catalog and at least one file, the choice of the
    project's version ends in one of three ways: it returns a version of the
    catalog, it raises the conflict, or it raises the ValueError of a file
    whose first eligible line is not ASCII text.  When the first eligible
    line of every file is ASCII text, only the first two remain.  When the
    refreshed catalog is empty it raises CompilerVersionNotSupported("No
    compiler available. No connection to GitHub?") before any file is
    scanned, whatever the files. *)
Theorem project_version_outcomes :
  (forall (env : Environment) (files : list (list string))
          (G G' : list SolidityVersion),
      set_supported_solc_versions env G = (Ok tt, G') ->
      G' <> [] ->
      files <> [] ->
      (exists m, compile_solfiles_solc_version env files G = (Ok m, G') /\ In m G') \/
      compile_solfiles_solc_version env files G = (Raise conflicting, G') \/
      (exists f l msg,
          In f files /\ first_eligible f = Some l /\ isascii l = false /\
          compile_solfiles_solc_version env files G = (Raise (ValueError msg), G'))) /\
  (forall (env : Environment) (files : list (list string))
          (G G' : list SolidityVersion),
      set_supported_solc_versions env G = (Ok tt, G') ->
      G' <> [] ->
      files <> [] ->
      Forall ascii_pragma files ->
      (exists m, compile_solfiles_solc_version env files G = (Ok m, G') /\ In m G') \/
      compile_solfiles_solc_version env files G = (Raise conflicting, G')) /\
  (forall (env : Environment) (files : list (list string))
          (G : list SolidityVersion),
      set_supported_solc_versions env G = (Ok tt, []) ->
      compile_solfiles_solc_version env files G =
      (Raise (CompilerVersionNotSupported
                "No compiler available. No connection to GitHub?"), [])).
Proof. exact project_version_cases. Qed.

Lemma project_version_outcomes_witness :
  ((exists m,
      compile_solfiles_solc_version
        (mkEnvironment None ["v0.4.24"; "v0.5.0"])
        [["pragma solidity ^0.4.0;"]; ["contract C {}"]] [] =
      (Ok m, [release 0 4 24; release 0 5 0]) /\
      In m [release 0 4 24; release 0 5 0]) \/
   compile_solfiles_solc_version
     (mkEnvironment None ["v0.4.24"; "v0.5.0"])
     [["pragma solidity ^0.4.0;"]; ["contract C {}"]] [] =
   (Raise conflicting, [release 0 4 24; release 0 5 0])) /\
  compile_solfiles_solc_version
    (mkEnvironment None ["v0.4.10"]) [["pragma solidity ^0.4.0;"]] [release 0 5 0] =
  (Raise (CompilerVersionNotSupported
            "No compiler available. No connection to GitHub?"), []).
Proof.
  split.
  - apply (proj1 (proj2 project_version_outcomes));
      [reflexivity | discriminate | discriminate |].
    constructor; [intros l F; vm_compute in F; inversion F; reflexivity|].
    constructor; [intros l F; vm_compute in F; discriminate F|]. constructor.
  - apply (proj2 (proj2 project_version_outcomes)). reflexivity.
Defined.

(** ** More on [complete_remapping] *)

Lemma str_split_length (c : ascii) (s : string) :
  List.length (str_split c s) = S (count_char c s).
Proof.
  induction s as [|a s IH]; cbn [str_split count_char]; [reflexivity|].
  destruct (Ascii.eqb a c); cbn [List.length]; [now rewrite IH|].
  destruct (str_split c s) as [|p ps]; [discriminate | exact IH].
Qed.

Lemma str_split_one (c : ascii) (s : string) : forall b : string,
  str_split c s = [b] -> s = b.
Proof.
  induction s as [|y s IH]; intros b; cbn [str_split]; [congruence|].
  pose proof (str_split_length c s) as L.
  destruct (Ascii.eqb y c).
  - intros H. inversion H as [[Hb Hs]]. rewrite Hs in L. discriminate.
  - destruct (str_split c s) as [|p ps]; [discriminate|].
    intros H. inversion H; subst. f_equal. now apply IH.
Qed.

Lemma str_split_two (c : ascii) (s : string) : forall a b : string,
  str_split c s = [a; b] -> s = a ++ String c b.
Proof.
  induction s as [|x s IH]; intros a b; cbn [str_split]; [discriminate|].
  destruct (Ascii.eqb_spec x c) as [->|Hx].
  - intros H. inversion H as [[Ha Hs]]. cbn [append]. f_equal.
    now apply (str_split_one c).
  - destruct (str_split c s) as [|p ps] eqn:E; [discriminate|].
    intros H. inversion H; subst. cbn [append]. f_equal. now apply IH.
Qed.

(** The three cases of [complete_remapping], by the number of equals signs. *)
Lemma complete_remapping_cases :
  forall proj_dir remapping : string,
    (count_char "=" remapping = 0%nat ->
     complete_remapping proj_dir remapping =
     Raise (ValueError "not enough values to unpack (expected 2, got 1)")) /\
    ((2 <= count_char "=" remapping)%nat ->
     complete_remapping proj_dir remapping =
     Raise (ValueError "too many values to unpack (expected 2)")) /\
    (count_char "=" remapping = 1%nat ->
     exists name old_path,
       remapping = name ++ "=" ++ old_path /\
       complete_remapping proj_dir remapping =
       Ok (name ++ "=" ++ os_path_join proj_dir old_path)).
Proof.
  intros proj_dir remapping.
  pose proof (str_split_length "=" remapping) as L.
  unfold complete_remapping.
  destruct (str_split "=" remapping) as [|a [|b [|c rest]]] eqn:E;
    cbn [List.length] in L.
  - lia.
  - split; [|split]; intros H; [reflexivity | lia | lia].
  - split; [|split]; intros H; [lia | lia |].
    exists a, b. split; [|reflexivity]. now apply str_split_two.
  - split; [|split]; intros H; [lia | reflexivity | lia].
Qed.

(** X11.  [complete_remapping] returns an entry exactly for the remappings
    with one equals sign: it raises ValueError when there is none (not enough
    values to unpack) and when there are two or more (too many).  The entry
    it returns keeps the name in front of the sign and joins the project
    directory with the path after it. *)
Theorem complete_remapping_needs_one_equals_sign :
  forall proj_dir remapping : string,
    (count_char "=" remapping = 0%nat ->
     complete_remapping proj_dir remapping =
     Raise (ValueError "not enough values to unpack (expected 2, got 1)")) /\
    ((2 <= count_char "=" remapping)%nat ->
     complete_remapping proj_dir remapping =
     Raise (ValueError "too many values to unpack (expected 2)")) /\
    (count_char "=" remapping = 1%nat ->
     exists name old_path,
       remapping = name ++ "=" ++ old_path /\
       complete_remapping proj_dir remapping =
       Ok (name ++ "=" ++ os_path_join proj_dir old_path)).
Proof. exact complete_remapping_cases. Qed.

Lemma complete_remapping_needs_one_equals_sign_witness :
  complete_remapping "/proj" "zeppelin" =
    Raise (ValueError "not enough values to unpack (expected 2, got 1)") /\
  complete_remapping "/proj" "a=b=c" =
    Raise (ValueError "too many values to unpack (expected 2)") /\
  exists name old_path,
    "=lib" = name ++ "=" ++ old_path /\
    complete_remapping "/proj/" "=lib" =
    Ok (name ++ "=" ++ os_path_join "/proj/" old_path).
Proof.
  split; [|split].
  - apply (proj1 (complete_remapping_needs_one_equals_sign "/proj" "zeppelin")).
    reflexivity.
  - apply (proj1 (proj2 (complete_remapping_needs_one_equals_sign "/proj" "a=b=c"))).
    cbn. lia.
  - apply (proj2 (proj2 (complete_remapping_needs_one_equals_sign "/proj/" "=lib"))).
    reflexivity.
Defined.

(** ** The source files of a project *)

Lemma scan_files_spec (project_root p : string) (fs : list string) :
  forall lists,
    scan_files project_root p fs lists =
    if is_source_dir project_root p
    then (fst lists ++ map (os_path_join p) (filter (fun f => endswith f ".sol") fs),
          snd lists)%list
    else (fst lists,
          snd lists ++ map (os_path_join p) (filter (fun f => endswith f ".sol") fs))%list.
Proof.
  induction fs as [|f fs IH]; intros [s t]; cbn [scan_files filter map fst snd].
  - rewrite !app_nil_r. destruct (is_source_dir project_root p); reflexivity.
  - rewrite IH.
    destruct (endswith f ".sol"), (is_source_dir project_root p);
      cbn [fst snd map]; rewrite <- ?app_assoc; reflexivity.
Qed.

Lemma scan_walk_spec (project_root : string) (walk : list walk_entry) :
  forall lists,
    scan_walk project_root walk lists =
    (fst lists ++ sol_files_of true project_root walk,
     snd lists ++ sol_files_of false project_root walk)%list.
Proof.
  induction walk as [|[[p ds] fs] walk IH]; intros [s t];
    cbn [scan_walk sol_files_of flat_map fst snd].
  - now rewrite !app_nil_r.
  - rewrite IH, scan_files_spec. fold (sol_files_of true project_root walk).
    fold (sol_files_of false project_root walk).
    destruct (is_source_dir project_root p); cbn [fst snd Bool.eqb app];
      rewrite <- ?app_assoc; reflexivity.
Qed.

Lemma get_sol_files_spec (walk : list walk_entry) (project_root : string) :
  get_sol_files walk project_root =
  match sol_files_of true project_root walk with
  | [] => sol_files_of false project_root walk
  | _ :: _ => sol_files_of true project_root walk
  end.
Proof.
  unfold get_sol_files. rewrite scan_walk_spec. cbn [fst snd app].
  destruct (sol_files_of true project_root walk); reflexivity.
Qed.

Lemma sol_files_of_In (kind : bool) (project_root : string)
  (walk : list walk_entry) (path : string) :
  In path (sol_files_of kind project_root walk) <->
  exists p ds fs f,
    In (p, ds, fs) walk /\ In f fs /\ endswith f ".sol" = true /\
    is_source_dir project_root p = kind /\ path = os_path_join p f.
Proof.
  unfold sol_files_of. rewrite in_flat_map. split.
  - intros ([[p ds] fs] & He & Hp).
    destruct (Bool.eqb (is_source_dir project_root p) kind) eqn:K; [|destruct Hp].
    apply in_map_iff in Hp. destruct Hp as (f & <- & Hf).
    apply filter_In in Hf. destruct Hf as [Hf Hsol].
    exists p, ds, fs, f. repeat split; try assumption. now apply Bool.eqb_prop.
  - intros (p & ds & fs & f & He & Hf & Hsol & K & ->).
    exists (p, ds, fs). split; [exact He|].
    rewrite K, Bool.eqb_reflx. apply in_map. apply filter_In. auto.
Qed.

Lemma endswith_append (a s suffix : string) :
  endswith s suffix = true -> endswith (a ++ s) suffix = true.
Proof.
  intros H. induction a as [|c a IH]; cbn [append endswith]; [exact H|].
  rewrite IH. apply orb_true_r.
Qed.

Lemma endswith_join (p f suffix : string) :
  endswith f suffix = true -> endswith (os_path_join p f) suffix = true.
Proof.
  intros H. unfold os_path_join.
  destruct (startswith f "/"); [exact H|].
  destruct (String.eqb p "" || endswith_char p "/").
  - now apply endswith_append.
  - apply endswith_append. now apply (endswith_append "/").
Qed.

(** The tests of Python on strings, said with concatenation. *)
Lemma prefix_iff (p s : string) : prefix p s = true <-> exists after, s = p ++ after.
Proof.
  revert s. induction p as [|a p IH]; intros s.
  - split; [intros _; now exists s | intros _; now destruct s].
  - destruct s as [|c s]; cbn [prefix append];
      [split; [discriminate | intros [? ?]; discriminate]|].
    destruct (ascii_dec a c) as [<-|N].
    + rewrite IH. split; intros [after E]; exists after; congruence.
    + split; [discriminate | intros [after E]; congruence].
Qed.

Lemma str_in_iff (needle hay : string) :
  str_in needle hay = true <-> occurs needle hay.
Proof.
  unfold occurs. induction hay as [|c hay IH]; cbn [str_in].
  - rewrite orb_false_r, prefix_iff. split.
    + intros [after E]. now exists "", after.
    + intros (before & after & E). destruct before; [now exists after | discriminate].
  - rewrite orb_true_iff, prefix_iff, IH. split.
    + intros [[after E]|(before & after & E)].
      * now exists "", after.
      * exists (String c before), after. cbn [append]. now rewrite E.
    + intros (before & after & E). destruct before as [|x before].
      * left. now exists after.
      * right. exists before, after. cbn [append] in E. congruence.
Qed.

Lemma endswith_iff (s suffix : string) :
  endswith s suffix = true <-> ends_with s suffix.
Proof.
  unfold ends_with. induction s as [|c s IH]; cbn [endswith].
  - rewrite orb_false_r, String.eqb_eq. split.
    + intros <-. now exists "".
    + intros [before E]. destruct before; [exact E | discriminate].
  - rewrite orb_true_iff, String.eqb_eq, IH. split.
    + intros [<-|[before E]]; [now exists "" |].
      exists (String c before). cbn [append]. now rewrite E.
    + intros [before E]. destruct before as [|x before]; [now left|].
      right. exists before. cbn [append] in E. congruence.
Qed.

Lemma drop_append (a b : string) : drop (String.length a) (a ++ b) = b.
Proof. induction a as [|c a IH]; [reflexivity | exact IH]. Qed.

(** The test of [get_sol_files] on a directory under the root. *)
Lemma is_source_dir_iff (project_root rel : string) :
  is_source_dir project_root (project_root ++ rel) = true <->
  source_directory project_root rel.
Proof.
  unfold is_source_dir, source_directory.
  rewrite drop_append, !andb_true_iff, !negb_true_iff.
  rewrite <- !not_true_iff_false, !str_in_iff, endswith_iff. tauto.
Qed.

(** X12.  Every path [get_sol_files] returns is a file of the walk whose name
    ends with '.sol', joined to its directory.  Call a directory of the walk
    a directory of sources when 'node_modules' occurs nowhere in its path,
    '/test/' does not occur in what follows the root in its path, and its
    path does not end with '/test'.  As soon as one '.sol' file stands in a
    directory of sources, the result holds exactly the '.sol' files of the
    directories of sources; the '.sol' files of the other directories (under
    node_modules, or test directories in that sense) are returned only when
    there is no other, and then all of them are.  The test for '/test/'
    reads the path after as many characters as the root has: with the root
    written '/p/', the directory '/p/test/sub' is a directory of sources. *)
Theorem get_sol_files_prefers_sources :
  (forall (walk : list walk_entry) (project_root : string),
      (forall p ds fs, In (p, ds, fs) walk -> exists rel, p = project_root ++ rel) ->
      (forall path, In path (get_sol_files walk project_root) ->
         ends_with path ".sol" /\
         exists p ds fs f,
           In (p, ds, fs) walk /\ In f fs /\ ends_with f ".sol" /\
           path = os_path_join p f) /\
      ((exists rel ds fs f,
           In (project_root ++ rel, ds, fs) walk /\ In f fs /\
           ends_with f ".sol" /\ source_directory project_root rel) ->
       forall path,
         In path (get_sol_files walk project_root) <->
         exists rel ds fs f,
           In (project_root ++ rel, ds, fs) walk /\ In f fs /\
           ends_with f ".sol" /\ source_directory project_root rel /\
           path = os_path_join (project_root ++ rel) f) /\
      (~ (exists rel ds fs f,
             In (project_root ++ rel, ds, fs) walk /\ In f fs /\
             ends_with f ".sol" /\ source_directory project_root rel) ->
       forall path,
         In path (get_sol_files walk project_root) <->
         exists p ds fs f,
           In (p, ds, fs) walk /\ In f fs /\ ends_with f ".sol" /\
           path = os_path_join p f)) /\
  get_sol_files
    [("/p", ["contracts"; "test"; "node_modules"], ["README.md"]);
     ("/p/contracts", [], ["A.sol"; "A.json"]);
     ("/p/test", [], ["T.sol"]);
     ("/p/test/unit", [], ["U.sol"]);
     ("/p/node_modules/zeppelin", [], ["Z.sol"])] "/p" =
    ["/p/contracts/A.sol"] /\
  get_sol_files
    [("/p/test", [], ["T.sol"]);
     ("/p/node_modules/zeppelin", [], ["Z.sol"])] "/p" =
    ["/p/test/T.sol"; "/p/node_modules/zeppelin/Z.sol"] /\
  get_sol_files
    [("/p/", ["contracts"; "test"], []);
     ("/p/contracts", [], ["A.sol"]);
     ("/p/test", ["sub"], ["T.sol"]);
     ("/p/test/sub", [], ["X.sol"])] "/p/" =
    ["/p/contracts/A.sol"; "/p/test/sub/X.sol"].
Proof.
  split; [|repeat split; reflexivity].
  intros walk project_root Hroot.
  assert (Hsrc : forall path,
             In path (sol_files_of true project_root walk) <->
             exists rel ds fs f,
               In (project_root ++ rel, ds, fs) walk /\ In f fs /\
               ends_with f ".sol" /\ source_directory project_root rel /\
               path = os_path_join (project_root ++ rel) f).
  { intros path. rewrite sol_files_of_In. split.
    - intros (p & ds & fs & f & He & Hf & Hsol & K & ->).
      destruct (Hroot p ds fs He) as [rel ->].
      exists rel, ds, fs, f. rewrite <- endswith_iff, <- is_source_dir_iff. auto.
    - intros (rel & ds & fs & f & He & Hf & Hsol & K & ->).
      exists (project_root ++ rel), ds, fs, f.
      rewrite endswith_iff, is_source_dir_iff. auto. }
  assert (Hany : forall kind path,
             In path (sol_files_of kind project_root walk) ->
             exists p ds fs f,
               In (p, ds, fs) walk /\ In f fs /\ ends_with f ".sol" /\
               path = os_path_join p f).
  { intros kind path H. apply sol_files_of_In in H.
    destruct H as (p & ds & fs & f & He & Hf & Hsol & _ & ->).
    exists p, ds, fs, f. rewrite <- endswith_iff. auto. }
  rewrite get_sol_files_spec. split; [|split].
  - intros path Hin.
    assert (H : exists kind, In path (sol_files_of kind project_root walk)).
    { destruct (sol_files_of true project_root walk) eqn:E;
        [now exists false | exists true; now rewrite E]. }
    destruct H as [kind H]. split; [|exact (Hany kind path H)].
    apply sol_files_of_In in H.
    destruct H as (p & ds & fs & f & _ & _ & Hsol & _ & ->).
    apply endswith_iff. now apply endswith_join.
  - intros (rel & ds & fs & f & He & Hf & Hsol & Hdir) path.
    assert (Hin : In (os_path_join (project_root ++ rel) f)
                     (sol_files_of true project_root walk)).
    { apply Hsrc. exists rel, ds, fs, f. auto. }
    destruct (sol_files_of true project_root walk); [destruct Hin | apply Hsrc].
  - intros Hnone path.
    assert (E : sol_files_of true project_root walk = []).
    { destruct (sol_files_of true project_root walk) as [|x xs]; [reflexivity|].
      exfalso. apply Hnone.
      destruct (proj1 (Hsrc x) (or_introl Logic.eq_refl))
        as (rel & ds & fs & f & H1 & H2 & H3 & H4 & _).
      exists rel, ds, fs, f. auto. }
    rewrite E. split; [apply Hany|].
    intros (p & ds & fs & f & He & Hf & Hsol & ->).
    apply sol_files_of_In. exists p, ds, fs, f.
    rewrite endswith_iff. repeat split; try assumption.
    destruct (is_source_dir project_root p) eqn:K; [|reflexivity].
    exfalso. apply Hnone. destruct (Hroot p ds fs He) as [rel ->].
    exists rel, ds, fs, f. rewrite <- is_source_dir_iff. auto.
Qed.

Lemma get_sol_files_prefers_sources_witness :
  source_directory "/p" "/contracts" /\
  forall path,
    In path
       (get_sol_files
          [("/p", ["contracts"; "test"; "node_modules"], ["README.md"]);
           ("/p/contracts", [], ["A.sol"; "A.json"]);
           ("/p/test", [], ["T.sol"]);
           ("/p/node_modules/zeppelin", [], ["Z.sol"])] "/p") <->
    exists rel ds fs f,
      In ("/p" ++ rel, ds, fs)
         [("/p", ["contracts"; "test"; "node_modules"], ["README.md"]);
          ("/p/contracts", [], ["A.sol"; "A.json"]);
          ("/p/test", [], ["T.sol"]);
          ("/p/node_modules/zeppelin", [], ["Z.sol"])] /\
      In f fs /\ ends_with f ".sol" /\ source_directory "/p" rel /\
      path = os_path_join ("/p" ++ rel) f.
Proof.
  assert (D : source_directory "/p" "/contracts")
    by (apply is_source_dir_iff; reflexivity).
  split; [exact D|].
  refine (proj1 (proj2 (proj1 get_sol_files_prefers_sources
            [("/p", ["contracts"; "test"; "node_modules"], ["README.md"]);
             ("/p/contracts", [], ["A.sol"; "A.json"]);
             ("/p/test", [], ["T.sol"]);
             ("/p/node_modules/zeppelin", [], ["Z.sol"])] "/p"
            _)) _).
  - intros p ds fs [H|[H|[H|[H|[]]]]]; inversion H;
      [ now exists "" | now exists "/contracts" | now exists "/test"
      | now exists "/node_modules/zeppelin" ].
  - exists "/contracts", [], ["A.sol"; "A.json"], "A.sol".
    split; [cbn; tauto|]. split; [now left|]. split; [now exists "A" | exact D].
Defined.

(** When [get_sol_files] finds nothing. *)
Lemma get_sol_files_nil :
  forall (walk : list walk_entry) (project_root : string),
    get_sol_files walk project_root = [] <->
    forall p ds fs f, In (p, ds, fs) walk -> In f fs -> endswith f ".sol" = false.
Proof.
  intros walk project_root. rewrite get_sol_files_spec. split.
  - intros H p ds fs f He Hf.
    destruct (endswith f ".sol") eqn:Hsol; [|reflexivity].
    assert (Hin : In (os_path_join p f)
                     (sol_files_of (is_source_dir project_root p) project_root walk)).
    { apply sol_files_of_In. exists p, ds, fs, f. auto. }
    destruct (is_source_dir project_root p);
      destruct (sol_files_of true project_root walk);
      try discriminate H; try (rewrite H in Hin); destruct Hin.
  - intros H.
    assert (E : forall kind, sol_files_of kind project_root walk = []).
    { intros kind. destruct (sol_files_of kind project_root walk) as [|x xs] eqn:E;
        [reflexivity|].
      assert (Hin : In x (sol_files_of kind project_root walk))
        by (rewrite E; now left).
      apply sol_files_of_In in Hin.
      destruct Hin as (p & ds & fs & f & He & Hf & Hsol & _).
      rewrite (H p ds fs f He Hf) in Hsol. discriminate. }
    rewrite (E true). apply E.
Qed.

(** X13.  [get_sol_files] returns the empty list exactly when no file of the
    walk has a name that ends with '.sol'. *)
Theorem get_sol_files_empty_iff :
  forall (walk : list walk_entry) (project_root : string),
    get_sol_files walk project_root = [] <->
    forall p ds fs f, In (p, ds, fs) walk -> In f fs -> endswith f ".sol" = false.
Proof. exact get_sol_files_nil. Qed.

(** ** The remappings passed to the compiler *)



Lemma startswith_append (a b p : string) :
  a <> "" -> startswith a p = true -> String.length p = 1%nat ->
  startswith (a ++ b) p = true.
Proof.
  unfold startswith. destruct p as [|c [|? ?]]; try discriminate.
  destruct a as [|x a]; [congruence|]. intros _ H _. cbn in *.
  destruct (ascii_dec c x); [|discriminate]. destruct (a ++ b); reflexivity.
Qed.

(** An absolute directory joined with anything is absolute. *)
Lemma os_path_join_absolute (a b : string) :
  startswith a "/" = true -> startswith (os_path_join a b) "/" = true.
Proof.
  intros H. unfold os_path_join.
  destruct (startswith b "/") eqn:Hb; [exact Hb|].
  assert (Ha : a <> "") by (intros ->; discriminate).
  destruct (String.eqb a "" || endswith_char a "/");
    now apply startswith_append.
Qed.

Lemma normpath_absolute (path : string) :
  startswith path "/" = true -> startswith (normpath path) "/" = true.
Proof.
  intros H. unfold normpath.
  destruct (String.eqb_spec path ""); [subst; discriminate|].
  rewrite H.
  destruct (startswith path "//" && negb (startswith path "///"));
    match goal with
    | |- context [String.concat "/" ?l] => generalize (String.concat "/" l)
    end; intros joined; cbn; destruct joined; reflexivity.
Qed.

Lemma abspath_absolute (cwd path : string) :
  startswith cwd "/" = true -> startswith (abspath cwd path) "/" = true.
Proof.
  intros H. unfold abspath. apply normpath_absolute.
  destruct (startswith path "/") eqn:Hp; [exact Hp|].
  now apply os_path_join_absolute.
Qed.

(** X14.  The remappings [compile_solfiles] passes to the compiler are the
    explicit ones, completed, in their order, followed by at most the two
    automatic ones, zeppelin-solidity before openzeppelin-solidity.  When the
    project directory and the working directory are absolute, every entry
    has the form name=path with an absolute path.  The list is built exactly
    when every explicit remapping has one equals sign; otherwise the
    ValueError of a malformed one is raised. *)
Theorem remappings_for_the_compiler :
  forall (Output : Type) (tc : Toolchain Output) (proj_dir : string)
         (remappings : option (list string)),
    (forall out,
        compile_solfiles_remappings tc proj_dir remappings = Ok out ->
        exists completed automatic,
          out = (completed ++ automatic)%list /\
          Forall2 (fun r entry => complete_remapping proj_dir r = Ok entry)
                  match remappings with None => [] | Some r => r end completed /\
          (exists z o, automatic = (z ++ o)%list /\
              (z = [] \/ exists path, z = ["zeppelin-solidity=" ++ path]) /\
              (o = [] \/ exists path, o = ["openzeppelin-solidity=" ++ path])) /\
          (startswith proj_dir "/" = true ->
           startswith (getcwd tc) "/" = true ->
           forall entry, In entry out ->
             exists name path,
               entry = name ++ "=" ++ path /\ startswith path "/" = true)) /\
    ((exists out, compile_solfiles_remappings tc proj_dir remappings = Ok out) <->
     Forall (fun r => count_char "=" r = 1%nat)
            match remappings with None => [] | Some r => r end) /\
    (forall e,
        compile_solfiles_remappings tc proj_dir remappings = Raise e ->
        exists msg, e = ValueError msg).
Proof.
  intros Output tc proj_dir remappings.
  set (rs := match remappings with None => [] | Some r => r end).
  unfold compile_solfiles_remappings. fold rs.
  split; [|split].
  - intros out H.
    destruct (for_each (complete_remapping proj_dir) rs) as [completed|e] eqn:E;
      [|discriminate].
    cbn [bind] in H. pose proof (for_each_In _ _ _ E) as HF.
    assert (Hexp : startswith proj_dir "/" = true ->
                   forall entry, In entry completed ->
                   exists name path,
                     entry = name ++ "=" ++ path /\ startswith path "/" = true).
    { intros Hp entry Hin. clear - HF Hp Hin.
      induction HF as [|r y rs' ys Hry _ IH]; [destruct Hin|].
      destruct Hin as [<-|Hin]; [|now apply IH].
      destruct (complete_remapping_cases proj_dir r) as (H0 & H2 & H1).
      destruct (count_char "=" r) as [|[|n]] eqn:C.
      - rewrite H0 in Hry by reflexivity. discriminate.
      - destruct (H1 Logic.eq_refl) as (name & old & _ & Hc).
        rewrite Hc in Hry. inversion Hry. exists name, (os_path_join proj_dir old).
        split; [reflexivity | now apply os_path_join_absolute].
      - rewrite H2 in Hry by lia. discriminate. }
    destruct (find_node_modules_dir tc proj_dir) as [nm|].
    + injection H as Hout. subst out.
      set (zp := abspath (getcwd tc) (os_path_join nm "zeppelin-solidity")) in *.
      set (op := abspath (getcwd tc) (os_path_join nm "openzeppelin-solidity")) in *.
      exists completed,
        ((if isdir tc zp then [("zeppelin-solidity=" ++ zp)%string] else []) ++
         (if isdir tc op then [("openzeppelin-solidity=" ++ op)%string] else []))%list.
      split; [|split; [exact HF|split]].
      * destruct (isdir tc zp), (isdir tc op); cbn [app];
          rewrite <- ?app_assoc, ?app_nil_r; reflexivity.
      * eexists _, _. split; [reflexivity|].
        split; [destruct (isdir tc zp) | destruct (isdir tc op)]; eauto.
      * intros Hp Hc entry Hin.
        assert (Hin' : In entry completed \/
                       entry = "zeppelin-solidity=" ++ zp \/
                       entry = "openzeppelin-solidity=" ++ op).
        { destruct (isdir tc zp), (isdir tc op);
            repeat (apply in_app_or in Hin; destruct Hin as [Hin|Hin]);
            cbn [In] in Hin; intuition. }
        destruct Hin' as [Hin'|[->| ->]]; [now apply Hexp | |].
        -- exists "zeppelin-solidity", zp.
           split; [reflexivity | now apply abspath_absolute].
        -- exists "openzeppelin-solidity", op.
           split; [reflexivity | now apply abspath_absolute].
    + inversion H; subst. exists out, []. rewrite app_nil_r.
      split; [reflexivity|]. split; [exact HF|]. split.
      * exists [], []. auto.
      * intros Hp _. now apply Hexp.
  - split.
    + intros [out H].
      destruct (for_each (complete_remapping proj_dir) rs) as [completed|e] eqn:E;
        [|discriminate].
      pose proof (for_each_In _ _ _ E) as HF. clear - HF.
      induction HF as [|r y rs' ys Hry _ IH]; constructor; [|exact IH].
      destruct (complete_remapping_cases proj_dir r) as (H0 & H2 & _).
      destruct (count_char "=" r) as [|[|n]] eqn:C; [|reflexivity|].
      * rewrite H0 in Hry by reflexivity. discriminate.
      * rewrite H2 in Hry by lia. discriminate.
    + intros HF.
      assert (E : exists completed,
                   for_each (complete_remapping proj_dir) rs = Ok completed).
      { clear - HF. induction HF as [|r rs' Hr _ IH]; [now exists []|].
        destruct (complete_remapping_cases proj_dir r) as (_ & _ & H1).
        destruct (H1 Hr) as (name & old & _ & Hc). destruct IH as [ys IH].
        cbn [for_each]. rewrite Hc, IH. cbn [bind]. eauto. }
      destruct E as [completed ->]. cbn [bind].
      destruct (find_node_modules_dir tc proj_dir); eauto.
  - intros e H.
    destruct (for_each (complete_remapping proj_dir) rs) as [completed|e'] eqn:E.
    + cbn [bind] in H. destruct (find_node_modules_dir tc proj_dir); discriminate.
    + cbn [bind] in H. inversion H; subst.
      destruct (for_each_raises _ _ _ E) as (r & _ & Hr).
      destruct (complete_remapping_cases proj_dir r) as (H0 & H2 & H1).
      destruct (count_char "=" r) as [|[|n]] eqn:C.
      * rewrite H0 in Hr by reflexivity. inversion Hr. eauto.
      * destruct (H1 Logic.eq_refl) as (name & old & _ & Hc). congruence.
      * rewrite H2 in Hr by lia. inversion Hr. eauto.
Qed.

Lemma remappings_for_the_compiler_witness :
  exists completed automatic,
    ["a=/proj/lib/a"; "zeppelin-solidity=/proj/node_modules/zeppelin-solidity"] =
      (completed ++ automatic)%list /\
    Forall2 (fun r entry => complete_remapping "/proj" r = Ok entry)
            ["a=lib/a"] completed /\
    (exists z o, automatic = (z ++ o)%list /\
        (z = [] \/ exists path, z = ["zeppelin-solidity=" ++ path]) /\
        (o = [] \/ exists path, o = ["openzeppelin-solidity=" ++ path])) /\
    (startswith "/proj" "/" = true ->
     startswith "/" "/" = true ->
     forall entry,
       In entry ["a=/proj/lib/a";
                 "zeppelin-solidity=/proj/node_modules/zeppelin-solidity"] ->
       exists name path,
         entry = name ++ "=" ++ path /\ startswith path "/" = true).
Proof.
  apply (proj1 (remappings_for_the_compiler unit
           (mkToolchain unit
              (fun _ => []) (fun _ => Ok [])
              (fun d => Some (d ++ "/sub/../node_modules")) "/"
              (fun d => String.eqb d "/proj/node_modules/zeppelin-solidity")
              (fun _ => true) "/solc" (fun _ => Installed)
              (fun _ => inr "{}") (fun _ => tt))
           "/proj" (Some ["a=lib/a"]))).
  reflexivity.
Defined.

(** ** compile_project *)

(** [compile_solfiles] itself never raises NoSolidityProject. *)
Lemma compile_solfiles_not_NoSolidityProject {Output : Type} (tc : Toolchain Output)
  (env : Environment) (files : list string) (proj_dir : string)
  (solc_version : option version_argument) (output_values : list string)
  (remappings : option (list string)) (G : list SolidityVersion) (dir : string) :
  fst (compile_solfiles tc env files proj_dir solc_version output_values
         remappings G) <> Failed (NoSolidityProject dir).
Proof.
  unfold compile_solfiles, _get_binary.
  destruct (compile_solfiles_remappings tc proj_dir remappings); [|discriminate].
  destruct solc_version as [given|].
  - destruct (install_solc tc ("v" ++ format_version given)); try discriminate.
    destruct (negb (path_exists tc _)); [discriminate|].
    destruct (solc_wrapper tc _); discriminate.
  - destruct (choose_solc_version (parse_version_source tc) env files G)
      as [[x|e] G']; cbn [bind]; [|discriminate].
    destruct (install_solc tc ("v" ++ format_version (VersionObject x)));
      try discriminate.
    destruct (negb (path_exists tc _)); [discriminate|].
    destruct (solc_wrapper tc _); discriminate.
Qed.

(** X15.  [compile_project] raises NoSolidityProject, with the path it was
    given, exactly when no file under the path has a name that ends with
    '.sol'; it then leaves the catalog as it was.  With at least one such
    file it does what [compile_solfiles] does on the files [get_sol_files]
    returns, with the path as project directory and no remapping, whatever
    remappings it was given. *)
Theorem compile_project_no_sources :
  forall (Output : Type) (tc : Toolchain Output) (env : Environment)
         (path : string) (remappings : option (list string))
         (G : list SolidityVersion),
    ((forall p ds fs f,
         In (p, ds, fs) (os_walk tc path) -> In f fs -> endswith f ".sol" = false) <->
     exists dir,
       fst (compile_project tc env path remappings G) = Failed (NoSolidityProject dir)) /\
    (forall dir,
        fst (compile_project tc env path remappings G) = Failed (NoSolidityProject dir) ->
        dir = path /\ snd (compile_project tc env path remappings G) = G) /\
    (get_sol_files (os_walk tc path) path <> [] ->
     compile_project tc env path remappings G =
     compile_solfiles tc env (get_sol_files (os_walk tc path) path) path None
                      OUTPUT_VALUES None G).
Proof.
  intros Output tc env path remappings G.
  rewrite <- (get_sol_files_nil (os_walk tc path) path).
  unfold compile_project.
  destruct (get_sol_files (os_walk tc path) path) as [|s sources] eqn:E.
  - split; [|split].
    + split; [intros _; now exists path | reflexivity].
    + cbn [fst snd]. intros dir H. inversion H. auto.
    + congruence.
  - split; [|split].
    + split; [discriminate|]. intros [dir H].
      now apply compile_solfiles_not_NoSolidityProject in H.
    + intros dir H. now apply compile_solfiles_not_NoSolidityProject in H.
    + reflexivity.
Qed.

Lemma compile_project_no_sources_witness :
  compile_project failing_installer (mkEnvironment None ["v0.5.2"]) "/p"
                  (Some ["a=b"]) [] =
  compile_solfiles failing_installer (mkEnvironment None ["v0.5.2"])
    (get_sol_files (os_walk failing_installer "/p") "/p") "/p" None
    OUTPUT_VALUES None [].
Proof.
  apply (proj2 (proj2 (compile_project_no_sources unit failing_installer
                         (mkEnvironment None ["v0.5.2"]) "/p" (Some ["a=b"]) []))).
  discriminate.
Defined.

(** ** When the refresh raises *)



Lemma scan_releases_raises (releases : list Release) :
  forall acc e,
    scan_releases releases acc = Raise e ->
    exists r, In r releases /\ SolidityVersion_new (tail (tag_name r)) = Raise e.
Proof.
  induction releases as [|r releases IH]; intros acc e; cbn [scan_releases];
    [discriminate|].
  destruct (SolidityVersion_new (tail (tag_name r))) as [x|e'] eqn:E; cbn [bind].
  - rewrite minimal_version. cbn [bind]. intros H.
    assert (K : exists r', In r' releases /\
                           SolidityVersion_new (tail (tag_name r')) = Raise e).
    { destruct (operator.lt x (release 0 4 11)); [now apply (IH acc)|].
      destruct (negb (has_static_binary r)); [now apply (IH acc)|].
      now apply (IH (acc ++ [x])%list). }
    destruct K as (r' & Hr' & K). exists r'. split; [now right | exact K].
  - intros H. inversion H; subst. exists r. split; [now left | exact E].
Qed.

Lemma offline_raises (ids : list string) (e : exception) :
  (versions <- for_each (fun s => SolidityVersion_init (tail s)) ids ;;
   keep_supported versions) = Raise e ->
  exists id, In id ids /\ exists e', SolidityVersion_new (tail id) = Raise e' /\
                                     exists msg, e = ValueError msg \/ e = AttributeError msg.
Proof.
  destruct (for_each (fun s => SolidityVersion_init (tail s)) ids) as [objs|e0] eqn:E;
    cbn [bind].
  - pose proof (for_each_In _ _ _ E) as HF. clear E. intros H.
    induction HF as [|id obj ids' objs' Hio _ IH]; cbn [keep_supported] in H;
      [discriminate|].
    rewrite minimal_version in H. cbn [bind] in H.
    destruct obj as [x|]; cbn [attributes bind] in H.
    + destruct (keep_supported objs') as [kept|e1] eqn:K; cbn [bind] in H;
        [discriminate|].
      destruct (IH H) as (id' & Hin & He). exists id'. split; [now right | exact He].
    + inversion H; subst. exists id. split; [now left|].
      eexists. split; [|eauto].
      unfold SolidityVersion_new. rewrite Hio. reflexivity.
  - intros H. inversion H; subst.
    destruct (for_each_raises _ _ _ E) as (id & Hin & Hid).
    exists id. split; [exact Hin|].
    assert (Hn : SolidityVersion_new (tail id) = Raise e)
      by (unfold SolidityVersion_new; now rewrite Hid).
    exists e. split; [exact Hn | now apply (SolidityVersion_new_raises (tail id))].
Qed.

(** X17.  Given a release listing, or a fetch that failed,
    [set_supported_solc_versions] raises only over a name that is not a
    version string: the tag of a release of the listing when the fetch
    succeeded, an installed identifier when it failed.  What it raises then
    is the ValueError of [parse] or, for a name with nothing after its first
    character, an AttributeError, and the catalog stays as it was.  When
    every name concerned is a version string it returns.  (A reply that is
    no release listing is outside the statement, as it is outside
    [Environment].) *)
Theorem refresh_raises_over_a_bad_name :
  (forall (env : Environment) (G : list SolidityVersion) (releases : list Release),
      releases_json env = Some releases ->
      (forall e,
          fst (set_supported_solc_versions env G) = Raise e ->
          snd (set_supported_solc_versions env G) = G /\
          (exists msg, e = ValueError msg \/ e = AttributeError msg) /\
          exists r, In r releases /\
                    SolidityVersion_new (tail (tag_name r)) = Raise e) /\
      (Forall (fun r => exists x, SolidityVersion_new (tail (tag_name r)) = Ok x)
              releases ->
       fst (set_supported_solc_versions env G) = Ok tt)) /\
  (forall (env : Environment) (G : list SolidityVersion),
      releases_json env = None ->
      (forall e,
          fst (set_supported_solc_versions env G) = Raise e ->
          snd (set_supported_solc_versions env G) = G /\
          (exists msg, e = ValueError msg \/ e = AttributeError msg) /\
          exists id e', In id (get_installed_solc_versions env) /\
                        SolidityVersion_new (tail id) = Raise e') /\
      (Forall (fun id => exists x, SolidityVersion_new (tail id) = Ok x)
              (get_installed_solc_versions env) ->
       fst (set_supported_solc_versions env G) = Ok tt)).
Proof.
  split.
  - intros env G releases Hr. unfold set_supported_solc_versions. rewrite Hr. split.
    + intros e.
      destruct (scan_releases releases []) as [versions|e0] eqn:E; cbn [fst snd];
        [discriminate|].
      intros H. inversion H; subst. split; [reflexivity|].
      destruct (scan_releases_raises _ _ _ E) as (r & Hin & Hn).
      split; [now apply (SolidityVersion_new_raises (tail (tag_name r)))|].
      now exists r.
    + intros HF.
      destruct (scan_releases_total releases HF []) as [versions ->]. reflexivity.
  - intros env G Hr. split.
    + unfold set_supported_solc_versions. rewrite Hr. intros e.
      destruct (versions <- for_each (fun s => SolidityVersion_init (tail s))
                                     (get_installed_solc_versions env) ;;
                keep_supported versions) as [kept|e0] eqn:E; cbn [fst snd];
        [discriminate|].
      intros H. inversion H; subst. split; [reflexivity|].
      destruct (offline_raises _ _ E) as (id & Hin & e' & Hn & Hmsg).
      split; [exact Hmsg|]. now exists id, e'.
    + intros HF.
      assert (exists versions,
                 Forall2 (fun id x => SolidityVersion_new (tail id) = Ok x)
                         (get_installed_solc_versions env) versions) as [versions HV].
      { induction HF as [|id ids [x Hx] _ [vs IH]]; [exists []; constructor|].
        exists (x :: vs). now constructor. }
      rewrite (set_supported_offline env G versions Hr HV). reflexivity.
Qed.

Lemma refresh_raises_over_a_bad_name_witness :
  (snd (set_supported_solc_versions
          (mkEnvironment (Some [mkRelease "v0.5.2" []; mkRelease "nightly" []]) [])
          [release 0 4 24]) = [release 0 4 24] /\
   (exists msg,
       ValueError "invalid version number 'ightly'" = ValueError msg \/
       ValueError "invalid version number 'ightly'" = AttributeError msg) /\
   exists r, In r [mkRelease "v0.5.2" []; mkRelease "nightly" []] /\
             SolidityVersion_new (tail (tag_name r)) =
             Raise (ValueError "invalid version number 'ightly'")) /\
  fst (set_supported_solc_versions
         (mkEnvironment None ["v0.5.2"; "v0.4"]) []) = Ok tt.
Proof.
  split.
  - apply (proj1 (proj1 refresh_raises_over_a_bad_name
                    (mkEnvironment
                       (Some [mkRelease "v0.5.2" []; mkRelease "nightly" []]) [])
                    [release 0 4 24]
                    [mkRelease "v0.5.2" []; mkRelease "nightly" []]
                    Logic.eq_refl)
                 (ValueError "invalid version number 'ightly'")).
    reflexivity.
  - apply (proj2 (proj2 refresh_raises_over_a_bad_name
                    (mkEnvironment None ["v0.5.2"; "v0.4"]) [] Logic.eq_refl)).
    repeat constructor; eexists; reflexivity.
Defined.

(** ** The version [compile_project] installs *)

(** Every version of a refreshed catalog was read from a name. *)
Lemma catalog_versions_named (env : Environment) (G G' : list SolidityVersion) :
  set_supported_solc_versions env G = (Ok tt, G') ->
  forall x, In x G' -> exists name, SolidityVersion_new name = Ok x.
Proof.
  intros Hs x Hx. unfold set_supported_solc_versions in Hs.
  destruct (releases_json env) as [releases|].
  - destruct (scan_releases releases []) as [versions|e] eqn:E;
      inversion Hs; subst G'.
    apply (proj1 (proj2 (sorted_spec versions) x)) in Hx.
    destruct (scan_releases_spec releases [] versions E) as (kept & -> & Hk).
    apply Hk in Hx. destruct Hx as (r & _ & Hn & _). eauto.
  - destruct (for_each (fun s => SolidityVersion_init (tail s))
                       (get_installed_solc_versions env)) as [objs|e] eqn:E;
      cbn [bind] in Hs; [|discriminate].
    pose proof (for_each_In _ _ _ E) as HF. clear E.
    destruct (keep_supported objs) as [kept|e] eqn:K; inversion Hs; subst G'.
    clear Hs. revert kept K Hx.
    induction HF as [|id obj ids objs' Hio _ IH]; intros kept K Hx;
      cbn [keep_supported] in K.
    + inversion K; subst. destruct Hx.
    + rewrite minimal_version in K. cbn [bind] in K.
      destruct obj as [y|]; cbn [attributes bind] in K; [|discriminate].
      destruct (keep_supported objs') as [kept'|e'] eqn:K'; cbn [bind] in K;
        [|discriminate].
      inversion K; subst kept. clear K.
      assert (Hy : SolidityVersion_new (tail id) = Ok y)
        by (unfold SolidityVersion_new; now rewrite Hio).
      destruct (operator.ge y (release 0 4 11)).
      * destruct Hx as [<-|Hx]; [eauto | now apply (IH kept')].
      * now apply (IH kept').
Qed.

(** What the choice of the version can end with when the files are opened
    and read one after the other. *)
Lemma source_version_cases {Output : Type} (tc : Toolchain Output)
  (env : Environment) (files : list string) (G G' : list SolidityVersion) :
  set_supported_solc_versions env G = (Ok tt, G') ->
  files <> [] ->
  (exists m,
      choose_solc_version (parse_version_source tc) env files G = (Ok m, G') /\
      In m G') \/
  (exists e,
      choose_solc_version (parse_version_source tc) env files G = (Raise e, G') /\
      ((exists msg, e = CompilerVersionNotSupported msg) \/
       exists source, In source files /\ source_failure tc source e)).
Proof.
  intros Hs Hf. unfold choose_solc_version. rewrite Hs.
  destruct G' as [|g G']; [right; eexists; split; [reflexivity | left; eauto]|].
  cbn [List.length Nat.eqb].
  assert (HG : g :: G' <> []) by discriminate.
  assert (Hsrc : forall source r,
             parse_version_source tc (g :: G') source = r ->
             match r with
             | Ok m => In m (g :: G')
             | Raise e => (exists msg, e = CompilerVersionNotSupported msg) \/
                          source_failure tc source e
             end).
  { intros source r <-. unfold parse_version_source, source_failure.
    destruct (readlines tc source) as [lines|e] eqn:R; cbn [bind]; [|now right; left].
    destruct (parse_version_outcome (g :: G') lines HG)
      as [(m & -> & Hin)|[->|(l & msg & F & A & ->)]].
    - exact Hin.
    - left. eexists. reflexivity.
    - right. right. exists lines, l, msg. auto. }
  destruct (results_split (map (parse_version_source tc (g :: G')) files))
    as [(xs & E)|(xs & e & post & E)].
  - left. rewrite E.
    assert (Hne : xs <> []).
    { intros ->. destruct files; [congruence | discriminate]. }
    destruct (py_max_spec xs Hne) as (m & Hm & Hin & _).
    exists m. rewrite Hm. split; [reflexivity|].
    assert (Hok : In (Ok m) (map (parse_version_source tc (g :: G')) files))
      by (rewrite E; now apply in_map).
    apply in_map_iff in Hok. destruct Hok as (f & Hf' & _).
    exact (Hsrc f (Ok m) Hf').
  - right. rewrite E, py_max_raise. exists e. split; [reflexivity|].
    destruct (first_exception_of_a_file _ files xs e post E) as (f & Hin & He).
    destruct (Hsrc f (Raise e) He) as [H|H]; [now left|].
    right. now exists f.
Qed.

(** The steps of [compile_project] after the version is chosen. *)
Lemma compile_project_chosen {Output : Type} (tc : Toolchain Output)
  (env : Environment) (path : string) (remappings : option (list string))
  (G G' : list SolidityVersion) (m : SolidityVersion) :
  get_sol_files (os_walk tc path) path <> [] ->
  choose_solc_version (parse_version_source tc) env
    (get_sol_files (os_walk tc path) path) G = (Ok m, G') ->
  exists remappings',
    compile_solfiles_remappings tc path None = Ok remappings' /\
    compile_project tc env path remappings G =
    (match install_solc tc ("v" ++ SolidityVersion_str m) with
     | ConnectionError | CalledProcessError =>
         Failed (Raised (CompilerVersionNotSupported
                           ("Failed to install v" ++ SolidityVersion_str m
                            ++ " compiler.")))
     | Installed =>
         if path_exists tc (os_path_join (get_solc_folder tc)
                                         ("solc-v" ++ SolidityVersion_str m))
         then
           match solc_wrapper tc
                   {| import_remappings := remappings';
                      allow_paths := path;
                      source_files := get_sol_files (os_walk tc path) path;
                      solc_binary :=
                        os_path_join (get_solc_folder tc)
                                     ("solc-v" ++ SolidityVersion_str m);
                      combined_json := "abi,ast,bin-runtime,srcmap-runtime" |} with
           | inr stdoutdata => Returned (_parse_compiler_output tc stdoutdata)
           | inl e =>
               Failed (SolidityCompilationException
                         e (get_sol_files (os_walk tc path) path))
           end
         else Failed (AssertionError ("solc binary not found for version: "
                                      ++ SolidityVersion_str m))
     end, G').
Proof.
  intros Hne Hv. unfold compile_project.
  destruct (get_sol_files (os_walk tc path) path) as [|s sources]; [congruence|].
  unfold compile_solfiles. rewrite Hv. cbn [bind format_version].
  destruct (compile_solfiles_remappings tc path None) as [remappings'|e] eqn:E.
  2:{ unfold compile_solfiles_remappings in E. cbn [for_each bind] in E.
      destruct (find_node_modules_dir tc path); discriminate. }
  exists remappings'. split; [reflexivity|].
  destruct (install_solc tc ("v" ++ SolidityVersion_str m)); try reflexivity.
  unfold _get_binary. cbn [format_version].
  destruct (path_exists tc _); cbn [negb]; [|reflexivity].
  destruct (solc_wrapper tc _); reflexivity.
Qed.

(** When the choice of the version raises, [compile_project] ends with that
    exception. *)
Lemma compile_project_choice_raises {Output : Type} (tc : Toolchain Output)
  (env : Environment) (path : string) (remappings : option (list string))
  (G G' : list SolidityVersion) (e : exception) :
  get_sol_files (os_walk tc path) path <> [] ->
  choose_solc_version (parse_version_source tc) env
    (get_sol_files (os_walk tc path) path) G = (Raise e, G') ->
  compile_project tc env path remappings G = (Failed (Raised e), G').
Proof.
  intros Hne Hv. unfold compile_project.
  destruct (get_sol_files (os_walk tc path) path) as [|s sources]; [congruence|].
  unfold compile_solfiles, compile_solfiles_remappings. cbn [for_each bind].
  destruct (find_node_modules_dir tc path); rewrite Hv; reflexivity.
Qed.

(** X16.  Once the refresh of the catalog returns, [compile_project] ends in
    one of these ways only: it returns the parsed output of the compiler; or
    it raises NoSolidityProject for its path, the AssertionError of a
    missing binary, SolidityCompilationException with the files
    [get_sol_files] returned, CompilerVersionNotSupported, or what the scan
    of one of those files raised: the exception of opening and reading it,
    or the ValueError of a first eligible line that is not ASCII text.  When
    every file is read and its first eligible line, if it has one, is ASCII
    text, the scan of the files adds nothing: of the exceptions of
    [exception], [compile_project] raises CompilerVersionNotSupported alone.
    Except for NoSolidityProject the catalog after the call is the refreshed
    one. *)
Theorem compile_project_outcomes :
  forall (Output : Type) (tc : Toolchain Output) (env : Environment)
         (path : string) (remappings : option (list string))
         (G G' : list SolidityVersion),
    set_supported_solc_versions env G = (Ok tt, G') ->
    match compile_project tc env path remappings G with
    | (Returned _, after) => after = G'
    | (Failed (NoSolidityProject dir), after) => dir = path /\ after = G
    | (Failed (Raised e), after) =>
        after = G' /\
        ((exists msg, e = CompilerVersionNotSupported msg) \/
         exists source,
           In source (get_sol_files (os_walk tc path) path) /\
           source_failure tc source e)
    | (Failed (AssertionError _), after) => after = G'
    | (Failed (SolidityCompilationException _ files), after) =>
        files = get_sol_files (os_walk tc path) path /\ after = G'
    end /\
    (Forall (fun source => exists lines,
                 readlines tc source = Ok lines /\ ascii_pragma lines)
            (get_sol_files (os_walk tc path) path) ->
     forall e,
       fst (compile_project tc env path remappings G) = Failed (Raised e) ->
       exists msg, e = CompilerVersionNotSupported msg).
Proof.
  intros Output tc env path remappings G G' Hs.
  assert (P : match compile_project tc env path remappings G with
              | (Returned _, after) => after = G'
              | (Failed (NoSolidityProject dir), after) => dir = path /\ after = G
              | (Failed (Raised e), after) =>
                  after = G' /\
                  ((exists msg, e = CompilerVersionNotSupported msg) \/
                   exists source,
                     In source (get_sol_files (os_walk tc path) path) /\
                     source_failure tc source e)
              | (Failed (AssertionError _), after) => after = G'
              | (Failed (SolidityCompilationException _ files), after) =>
                  files = get_sol_files (os_walk tc path) path /\ after = G'
              end).
  { destruct (get_sol_files (os_walk tc path) path) as [|s sources] eqn:E.
    { unfold compile_project. rewrite E. split; reflexivity. }
    assert (Hne : get_sol_files (os_walk tc path) path <> []) by (rewrite E; discriminate).
    rewrite <- E in *.
    destruct (source_version_cases tc env _ G G' Hs Hne)
      as [(m & Hm & _)|(e & He & Hcause)].
    - destruct (compile_project_chosen tc env path remappings G G' m Hne Hm)
        as (remappings' & _ & ->).
      destruct (install_solc tc ("v" ++ SolidityVersion_str m));
        try (split; [reflexivity | left; eauto]).
      destruct (path_exists tc _); [|reflexivity].
      destruct (solc_wrapper tc _); [split|]; reflexivity.
    - rewrite (compile_project_choice_raises tc env path remappings G G' e Hne He).
      split; [reflexivity | exact Hcause]. }
  split; [exact P|].
  intros Hread e He.
  destruct (compile_project tc env path remappings G) as [[out|[e'| | |]] after];
    cbn [fst] in He; try discriminate.
  inversion He; subst e'. destruct P as [_ [H|(source & Hin & Hfail)]]; [exact H|].
  rewrite Forall_forall in Hread. destruct (Hread source Hin) as (lines & R & A).
  destruct Hfail as [Hf|(lines' & l & msg & R' & F & N & _)]; [congruence|].
  assert (lines' = lines) by congruence. subst lines'.
  rewrite (A l F) in N. discriminate.
Qed.

Lemma compile_project_outcomes_witness :
  ascii_pragma ["pragma solidity ^0.6.0;"] /\
  forall e,
    fst (compile_project
           (mkToolchain unit
              (fun _ => [("/p/contracts", [], ["A.sol"])])
              (fun _ => Ok ["pragma solidity ^0.6.0;"])
              (fun _ => None) "/" (fun _ => false) (fun _ => false) "/solc"
              (fun _ => Installed) (fun _ => inr "{}") (fun _ => tt))
           (mkEnvironment None ["v0.5.2"]) "/p" None []) = Failed (Raised e) ->
    exists msg, e = CompilerVersionNotSupported msg.
Proof.
  assert (A : ascii_pragma ["pragma solidity ^0.6.0;"]).
  { intros l F. vm_compute in F. inversion F. reflexivity. }
  split; [exact A|].
  refine (proj2 (compile_project_outcomes unit
            (mkToolchain unit
               (fun _ => [("/p/contracts", [], ["A.sol"])])
               (fun _ => Ok ["pragma solidity ^0.6.0;"])
               (fun _ => None) "/" (fun _ => false) (fun _ => false) "/solc"
               (fun _ => Installed) (fun _ => inr "{}") (fun _ => tt))
            (mkEnvironment None ["v0.5.2"]) "/p" None [] [release 0 5 2] _) _).
  - reflexivity.
  - constructor; [|constructor].
    exists ["pragma solidity ^0.6.0;"]. split; [reflexivity | exact A].
Defined.

(** X18.  With at least one source file and the catalog refreshed, either
    the choice of the version raises and [compile_project] ends with that
    exception, or [compile_project] goes on with a version [m] of the
    refreshed catalog: after a failed install or with the binary missing,
    the exception names [m] by its string, and that string reads back as
    [m], so that 'v' followed by it is an installed identifier of [m]; and
    the compiler is given the files of [get_sol_files], the path as the only
    allowed path, and the four output values joined by commas. *)
Theorem compile_project_installs_catalog_version :
  forall (Output : Type) (tc : Toolchain Output) (env : Environment)
         (path : string) (remappings : option (list string))
         (G G' : list SolidityVersion),
    set_supported_solc_versions env G = (Ok tt, G') ->
    get_sol_files (os_walk tc path) path <> [] ->
    (exists e,
        choose_solc_version (parse_version_source tc) env
          (get_sol_files (os_walk tc path) path) G = (Raise e, G') /\
        compile_project tc env path remappings G = (Failed (Raised e), G')) \/
    exists m remappings',
      In m G' /\
      SolidityVersion_new (tail ("v" ++ SolidityVersion_str m)) = Ok m /\
      compile_solfiles_remappings tc path None = Ok remappings' /\
      compile_project tc env path remappings G =
      (match install_solc tc ("v" ++ SolidityVersion_str m) with
       | ConnectionError | CalledProcessError =>
           Failed (Raised (CompilerVersionNotSupported
                             ("Failed to install v" ++ SolidityVersion_str m
                              ++ " compiler.")))
       | Installed =>
           if path_exists tc (os_path_join (get_solc_folder tc)
                                           ("solc-v" ++ SolidityVersion_str m))
           then
             match solc_wrapper tc
                     {| import_remappings := remappings';
                        allow_paths := path;
                        source_files := get_sol_files (os_walk tc path) path;
                        solc_binary :=
                          os_path_join (get_solc_folder tc)
                                       ("solc-v" ++ SolidityVersion_str m);
                        combined_json := "abi,ast,bin-runtime,srcmap-runtime" |} with
             | inr stdoutdata => Returned (_parse_compiler_output tc stdoutdata)
             | inl e =>
                 Failed (SolidityCompilationException
                           e (get_sol_files (os_walk tc path) path))
             end
           else Failed (AssertionError ("solc binary not found for version: "
                                        ++ SolidityVersion_str m))
       end, G').
Proof.
  intros Output tc env path remappings G G' Hs Hne.
  destruct (source_version_cases tc env _ G G' Hs Hne)
    as [(m & Hm & Hin)|(e & He & _)].
  - right.
    destruct (compile_project_chosen tc env path remappings G G' m Hne Hm)
      as (remappings' & Hr & Hp).
    exists m, remappings'. split; [exact Hin|]. split; [|split; assumption].
    destruct (catalog_versions_named env G G' Hs m Hin) as [name Hname].
    cbn [append tail].
    exact (proj2 version_str_reads_back name m Hname).
  - left. exists e. split; [exact He|].
    now apply compile_project_choice_raises.
Qed.

Lemma compile_project_installs_catalog_version_witness :
  (exists e,
      choose_solc_version (parse_version_source failing_installer)
        (mkEnvironment None ["v0.5.10"; "v0.5.2"])
        (get_sol_files (os_walk failing_installer "/p") "/p") [] =
      (Raise e, [release 0 5 10; release 0 5 2]) /\
      compile_project failing_installer (mkEnvironment None ["v0.5.10"; "v0.5.2"])
                      "/p" None [] =
      (Failed (Raised e), [release 0 5 10; release 0 5 2])) \/
  exists m remappings',
    In m [release 0 5 10; release 0 5 2] /\
    SolidityVersion_new (tail ("v" ++ SolidityVersion_str m)) = Ok m /\
    compile_solfiles_remappings failing_installer "/p" None = Ok remappings' /\
    compile_project failing_installer (mkEnvironment None ["v0.5.10"; "v0.5.2"])
                    "/p" None [] =
    (match install_solc failing_installer ("v" ++ SolidityVersion_str m) with
     | ConnectionError | CalledProcessError =>
         Failed (Raised (CompilerVersionNotSupported
                           ("Failed to install v" ++ SolidityVersion_str m
                            ++ " compiler.")))
     | Installed =>
         if path_exists failing_installer
              (os_path_join (get_solc_folder failing_installer)
                            ("solc-v" ++ SolidityVersion_str m))
         then
           match solc_wrapper failing_installer
                   {| import_remappings := remappings';
                      allow_paths := "/p";
                      source_files :=
                        get_sol_files (os_walk failing_installer "/p") "/p";
                      solc_binary :=
                        os_path_join (get_solc_folder failing_installer)
                                     ("solc-v" ++ SolidityVersion_str m);
                      combined_json := "abi,ast,bin-runtime,srcmap-runtime" |} with
           | inr stdoutdata =>
               Returned (_parse_compiler_output failing_installer stdoutdata)
           | inl e =>
               Failed (SolidityCompilationException
                         e (get_sol_files (os_walk failing_installer "/p") "/p"))
           end
         else Failed (AssertionError ("solc binary not found for version: "
                                      ++ SolidityVersion_str m))
     end, [release 0 5 10; release 0 5 2]).
Proof.
  apply (compile_project_installs_catalog_version unit failing_installer
           (mkEnvironment None ["v0.5.10"; "v0.5.2"]) "/p" None []
           [release 0 5 10; release 0 5 2]).
  - reflexivity.
  - discriminate.
Defined.
